(** * koexist-server: the socket.io chat relay of [server.js]

    A shallow embedding of the event handlers of [server.js] (the later
    revision of the file, which adds the FCM token map, the [group:*]
    handlers and the [new-message] handler; the handlers the two revisions
    share are textually identical), followed by the properties of the
    connection registry, of room fan-out and of message routing. *)

From Stdlib Require Import List String ZArith Bool Arith Lia DecimalString.
Import ListNotations.
Open Scope string_scope.
Set Warnings "-register-all".

(** ** JavaScript values

    Payloads arrive as deserialised JSON, or as [undefined] when the client
    sends no argument. Numbers are kept as integers. *)

Inductive jsval : Type :=
| JUndefined
| JNull
| JBool (b : bool)
| JNum (n : Z)
| JStr (s : string)
| JArr (items : list jsval)
| JObj (fields : list (string * jsval)).

Inductive exn : Type :=
| TypeError (what : string)
| Rejection (reason : jsval).

Inductive completion (A : Type) : Type :=
| Normal (a : A)
| Throw (e : exn).

Arguments Normal {A} a.
Arguments Throw {A} e.

(** Own property of a parsed object; a missing key reads as [undefined]. *)
Fixpoint own_prop (k : string) (fields : list (string * jsval)) : jsval :=
  match fields with
  | [] => JUndefined
  | (k', v) :: rest => if String.eqb k k' then v else own_prop k rest
  end.

(** [v.k] for the property names the handlers read ([uid], [to], [message],
    [chatId], [user], [text], [sender], ...): none of them is defined on a
    prototype, so on a primitive or an array the read gives [undefined];
    on [null] and [undefined] it raises a TypeError. *)
Definition get_prop (v : jsval) (k : string) : completion jsval :=
  match v with
  | JUndefined | JNull => Throw (TypeError k)
  | JObj fields => Normal (own_prop k fields)
  | _ => Normal JUndefined
  end.

Definition nullish (v : jsval) : bool :=
  match v with
  | JUndefined | JNull => true
  | _ => false
  end.

(** [a === b]. Two objects (or arrays) that come from different payloads are
    different references, hence never identical. The same comparison is the
    key equality of a [Map] and of the adapter's room table. *)
Definition strict_eq (a b : jsval) : bool :=
  match a, b with
  | JUndefined, JUndefined => true
  | JNull, JNull => true
  | JBool x, JBool y => Bool.eqb x y
  | JNum x, JNum y => Z.eqb x y
  | JStr x, JStr y => String.eqb x y
  | _, _ => false
  end.

(** Truthiness, as tested by [if (v)]. *)
Definition truthy (v : jsval) : bool :=
  match v with
  | JUndefined | JNull => false
  | JBool b => b
  | JNum n => negb (Z.eqb n 0)
  | JStr s => negb (String.eqb s EmptyString)
  | JArr _ | JObj _ => true
  end.

Definition decimal (n : Z) : string := NilZero.string_of_int (Z.to_int n).

(** String conversion, as performed by a template literal, on the values
    for which it cannot raise and prints no exponent: an object is taken to
    have no own [toString], and an integer to be below 1e21. *)
Fixpoint to_js_string (v : jsval) : string :=
  match v with
  | JUndefined => "undefined"
  | JNull => "null"
  | JBool true => "true"
  | JBool false => "false"
  | JNum n => decimal n
  | JStr s => s
  | JArr items =>
      (fix join (l : list jsval) : string :=
         match l with
         | [] => EmptyString
         | x :: rest =>
             let sx := if nullish x then EmptyString else to_js_string x in
             match rest with
             | [] => sx
             | _ :: _ => sx ++ "," ++ join rest
             end
         end) items
  | JObj _ => "[object Object]"
  end.

(** Parameter patterns [({ a, b }) => ...]: destructuring [null] or
    [undefined] raises; any other value yields its properties. *)
Definition destructure1 (p : jsval) (a : string) : completion jsval :=
  get_prop p a.

Definition destructure2 (p : jsval) (a b : string) : completion (jsval * jsval) :=
  match get_prop p a, get_prop p b with
  | Normal x, Normal y => Normal (x, y)
  | Throw e, _ => Throw e
  | _, Throw e => Throw e
  end.

Definition destructure3 (p : jsval) (a b c : string)
  : completion (jsval * jsval * jsval) :=
  match destructure2 p a b, get_prop p c with
  | Normal (x, y), Normal z => Normal (x, y, z)
  | Throw e, _ => Throw e
  | _, Throw e => Throw e
  end.

Fixpoint indexed (i : nat) (l : list jsval) : list (string * jsval) :=
  match l with
  | [] => []
  | x :: rest => (decimal (Z.of_nat i), x) :: indexed (S i) rest
  end.

Fixpoint characters (s : string) : list jsval :=
  match s with
  | EmptyString => []
  | String c rest => JStr (String c EmptyString) :: characters rest
  end.

(** The rest element [...data] of an object pattern: the own enumerable
    properties that the pattern did not name. *)
Definition rest_props (p : jsval) (named : list string) : jsval :=
  let unnamed (kv : string * jsval) := negb (existsb (String.eqb (fst kv)) named) in
  match p with
  | JObj fields => JObj (filter unnamed fields)
  | JArr items => JObj (filter unnamed (indexed 0 items))
  | JStr s => JObj (filter unnamed (indexed 0 (characters s)))
  | _ => JObj []
  end.

(** ** The JavaScript [Map]: an association list in insertion order *)

Section JsMap.
Context {K V : Type} (keq : K -> K -> bool).

(** [m.set(k, v)]: an existing key keeps its place and takes the new value;
    a new key goes last. *)
Fixpoint map_set (k : K) (v : V) (m : list (K * V)) : list (K * V) :=
  match m with
  | [] => [(k, v)]
  | (k', v') :: rest =>
      if keq k' k then (k', v) :: rest else (k', v') :: map_set k v rest
  end.

Fixpoint map_get (k : K) (m : list (K * V)) : option V :=
  match m with
  | [] => None
  | (k', v') :: rest => if keq k' k then Some v' else map_get k rest
  end.

Fixpoint map_delete (k : K) (m : list (K * V)) : list (K * V) :=
  match m with
  | [] => []
  | (k', v') :: rest =>
      if keq k' k then rest else (k', v') :: map_delete k rest
  end.

Definition map_values (m : list (K * V)) : list V := map snd m.

Definition map_has (k : K) (m : list (K * V)) : bool :=
  existsb (fun e => keq (fst e) k) m.

End JsMap.

(** [m.get(k)] as a value: [undefined] when the key is absent. *)
Definition or_undefined (o : option jsval) : jsval :=
  match o with
  | Some v => v
  | None => JUndefined
  end.

(** ** Server state

    [activeUsers] and [userTokens] are the two module-level maps of
    [server.js]. A socket id is the opaque handle that the transport gives a
    connection: a fresh, non-empty, unguessable string, modelled by a number;
    it is always truthy and never collides with a room key chosen by a
    client. *)

Open Scope list_scope.

Abbreviation socket_id := nat (only parsing).

(** Transport layer (socket.io), which [server.js] calls but does not
    contain. Its documented contract is modelled: the adapter keeps, per room
    key, the sockets that joined it; a socket leaves every room when it
    disconnects. A room argument is taken as one room key, as it is whenever
    it is not an array; socket.io reads an array as a list of room names,
    which is not modelled, so the properties that say exactly who receives
    a room emission are stated for primitive keys. [rooms] lists the
    memberships in join order and [sockets] the live connections. *)
Record server : Type := mkServer {
  activeUsers : list (socket_id * jsval);
  userTokens : list (jsval * jsval);
  rooms : list (jsval * socket_id);
  sockets : list socket_id
}.

Definition initial_server : server := mkServer [] [] [] [].

(** The four ways the handlers address an emission. *)
Inductive target : Type :=
| ToAll                                        (* io.emit *)
| ToSocket (id : socket_id)                    (* io.to(id).emit *)
| ToRoomExcept (room : jsval) (sender : socket_id)   (* socket.to(room).emit *)
| ToOthers (sender : socket_id).               (* socket.broadcast.emit *)

(** What a handler does besides changing the state. Console output is
    recorded by its leading label. *)
Inductive effect : Type :=
| ConsoleLog (label : string)
| ConsoleError (label : string) (e : exn)
| Emit (t : target) (event : string) (payload : jsval)
| Respond (status : nat) (body : jsval).

Definition is_emit (e : effect) : bool :=
  match e with
  | Emit _ _ _ => true
  | _ => false
  end.

Definition is_console_error (e : effect) : bool :=
  match e with
  | ConsoleError _ _ => true
  | _ => false
  end.

Definition emits (out : list effect) : list effect := filter is_emit out.

Definition errors (out : list effect) : list effect := filter is_console_error out.

(** *** Room membership kept by the adapter *)

Definition in_room (room : jsval) (id : socket_id) (rs : list (jsval * socket_id)) : bool :=
  existsb (fun m => strict_eq (fst m) room && Nat.eqb (snd m) id) rs.

Definition room_members (room : jsval) (rs : list (jsval * socket_id)) : list socket_id :=
  map snd (filter (fun m => strict_eq (fst m) room) rs).

(** [socket.join(room)]: no change when already a member. *)
Definition socket_join (id : socket_id) (room : jsval) (rs : list (jsval * socket_id))
  : list (jsval * socket_id) :=
  if in_room room id rs then rs else rs ++ [(room, id)].

(** [socket.leave(room)]. *)
Definition socket_leave (id : socket_id) (room : jsval) (rs : list (jsval * socket_id))
  : list (jsval * socket_id) :=
  filter (fun m => negb (strict_eq (fst m) room && Nat.eqb (snd m) id)) rs.

Definition leave_all (id : socket_id) (rs : list (jsval * socket_id))
  : list (jsval * socket_id) :=
  filter (fun m => negb (Nat.eqb (snd m) id)) rs.

(** The connections an emission reaches. [io.to(id)] addresses the
    connection whose id it is. [socket.to(room)] selects the sockets that
    joined [room] and leaves out the sending socket; whether the sender
    itself joined [room] plays no part. *)
Definition recipients (st : server) (t : target) : list socket_id :=
  match t with
  | ToAll => sockets st
  | ToSocket id => [id]
  | ToRoomExcept room sender =>
      filter (fun id => negb (Nat.eqb id sender)) (room_members room (rooms st))
  | ToOthers sender => filter (fun id => negb (Nat.eqb id sender)) (sockets st)
  end.

(** One delivered event: who receives it, its name, its payload. *)
Definition delivery : Type := (socket_id * string * jsval)%type.

Definition deliveries (st : server) (out : list effect) : list delivery :=
  flat_map (fun e =>
              match e with
              | Emit t ev payload => map (fun id => (id, ev, payload)) (recipients st t)
              | _ => []
              end) out.

(** ** Handler bodies: state, output and exceptions

    A block runs on the server state, appends to the output and either
    completes or throws; what it did before throwing stays done. *)

Definition block (A : Type) : Type := server -> server * list effect * completion A.

Definition ret {A : Type} (a : A) : block A := fun st => (st, [], Normal a).

Definition bind {A B : Type} (c : block A) (k : A -> block B) : block B :=
  fun st =>
    match c st with
    | (st1, out1, Normal a) =>
        match k a st1 with
        | (st2, out2, r) => (st2, out1 ++ out2, r)
        end
    | (st1, out1, Throw e) => (st1, out1, Throw e)
    end.

Declare Scope block_scope.
Delimit Scope block_scope with block.
Notation "x <- c ;; k" := (bind c (fun x => k))
  (at level 61, c at next level, right associativity) : block_scope.
Notation "c ;;; k" := (bind c (fun _ => k))
  (at level 61, right associativity) : block_scope.

Definition lift {A : Type} (c : completion A) : block A := fun st => (st, [], c).

Definition perform (e : effect) : block unit := fun st => (st, [e], Normal tt).

Definition read : block server := fun st => (st, [], Normal st).

Definition modify (f : server -> server) : block unit := fun st => (f st, [], Normal tt).

Definition console_log (label : string) : block unit := perform (ConsoleLog label).

Definition console_error (label : string) (e : exn) : block unit :=
  perform (ConsoleError label e).

Definition emit (t : target) (event : string) (payload : jsval) : block unit :=
  perform (Emit t event payload).

(** [try { body } catch (error) { handler error }] *)
Definition try_catch (body : block unit) (handler : exn -> block unit) : block unit :=
  fun st =>
    match body st with
    | (st1, out1, Normal _) => (st1, out1, Normal tt)
    | (st1, out1, Throw e) =>
        match handler e st1 with
        | (st2, out2, r) => (st2, out1 ++ out2, r)
        end
    end.

(** How a call of a handler ends: it returns, or an exception leaves it. *)
Inductive outcome : Type :=
| Returned (st : server) (out : list effect)
| Escaped (e : exn).

(** A listener [(params) => { body }]: binding the parameter pattern comes
    first and is not covered by any [try] of the body. *)
Definition listener {A : Type} (params : completion A) (body : A -> block unit)
  (st : server) : outcome :=
  match params with
  | Throw e => Escaped e
  | Normal a =>
      match body a st with
      | (st', out, Normal _) => Returned st' out
      | (_, _, Throw e) => Escaped e
      end
  end.

Definition set_activeUsers (f : list (socket_id * jsval) -> list (socket_id * jsval))
  (st : server) : server :=
  mkServer (f (activeUsers st)) (userTokens st) (rooms st) (sockets st).

Definition set_userTokens (f : list (jsval * jsval) -> list (jsval * jsval))
  (st : server) : server :=
  mkServer (activeUsers st) (f (userTokens st)) (rooms st) (sockets st).

Definition set_rooms (f : list (jsval * socket_id) -> list (jsval * socket_id))
  (st : server) : server :=
  mkServer (activeUsers st) (userTokens st) (f (rooms st)) (sockets st).

Definition set_sockets (f : list socket_id -> list socket_id) (st : server) : server :=
  mkServer (activeUsers st) (userTokens st) (rooms st) (f (sockets st)).

(** ** The socket event handlers of [io.on('connection', ...)] *)

(** [Array.prototype.find] with a predicate that may throw. *)
Fixpoint array_find {A : Type} (pred : A -> completion bool) (l : list A)
  : completion (option A) :=
  match l with
  | [] => Normal None
  | x :: rest =>
      match pred x with
      | Throw e => Throw e
      | Normal true => Normal (Some x)
      | Normal false => array_find pred rest
      end
  end.

(** [([_, user]) => user.uid === to] *)
Definition uid_is (to : jsval) (entry : socket_id * jsval) : completion bool :=
  match get_prop (snd entry) "uid" with
  | Normal uid => Normal (strict_eq uid to)
  | Throw e => Throw e
  end.

(** [Array.from(activeUsers.entries()).find(([_, user]) => user.uid === to)?.[0]] *)
Definition recipientSocket (users : list (socket_id * jsval)) (to : jsval)
  : completion (option socket_id) :=
  match array_find (uid_is to) users with
  | Normal found => Normal (option_map fst found)
  | Throw e => Throw e
  end.

(** [activeUsers.get(socket.id)] *)
Definition registered (socket : socket_id) (st : server) : jsval :=
  or_undefined (map_get Nat.eqb socket (activeUsers st)).

(** [Array.from(activeUsers.values())] *)
Definition snapshot (st : server) : jsval := JArr (map_values (activeUsers st)).

Section Handlers.
Variable socket : socket_id.
Local Open Scope block_scope.

Definition on_connection (st : server) : outcome :=
  listener (Normal tt) (fun _ =>
    console_log "User connected:" ;;;
    console_log "Transport:") st.

Definition on_user_join (userData : jsval) : server -> outcome :=
  listener (Normal userData) (fun userData =>
    console_log "User joining:" ;;;
    try_catch
      (modify (set_activeUsers (map_set Nat.eqb socket userData)) ;;;
       st <- read ;;
       emit ToAll "users:active" (snapshot st) ;;;
       console_log "User joined successfully:" ;;;
       console_log "Active users:")
      (console_error "Error in user:join:")).

Definition on_message_private (payload : jsval) : server -> outcome :=
  listener (destructure2 payload "to" "message") (fun '(to, message) =>
    console_log "Private message:" ;;;
    try_catch
      (st <- read ;;
       recipient <- lift (recipientSocket (activeUsers st) to) ;;
       match recipient with
       | Some id =>
           emit (ToSocket id) "message:receive"
             (JObj [("from", registered socket st); ("message", message)]) ;;;
           console_log "Private message sent successfully"
       | None => console_log "Recipient not found:"
       end)
      (console_error "Error in message:private:")).

Definition on_message_group (payload : jsval) : server -> outcome :=
  listener (destructure2 payload "chatId" "message") (fun '(chatId, message) =>
    console_log "Group message:" ;;;
    try_catch
      (st <- read ;;
       emit (ToRoomExcept chatId socket) "message:receive"
         (JObj [("from", registered socket st); ("message", message);
                ("chatId", chatId)]) ;;;
       console_log "Group message sent successfully")
      (console_error "Error in message:group:")).

Definition on_chat_join (chatId : jsval) : server -> outcome :=
  listener (Normal chatId) (fun chatId =>
    console_log "Joining chat:" ;;;
    try_catch
      (modify (set_rooms (socket_join socket chatId)) ;;;
       console_log ("User " ++ decimal (Z.of_nat socket) ++ " joined chat "
                      ++ to_js_string chatId)%string)
      (console_error "Error in chat:join:")).

Definition on_typing (isTyping : bool) (label : string) (payload : jsval)
  : server -> outcome :=
  listener (destructure2 payload "chatId" "user") (fun '(chatId, user) =>
    try_catch
      (emit (ToRoomExcept chatId socket) "typing:update"
         (JObj [("user", user); ("isTyping", JBool isTyping)]))
      (console_error label)).

Definition on_typing_start : jsval -> server -> outcome :=
  on_typing true "Error in typing:start:".

Definition on_typing_stop : jsval -> server -> outcome :=
  on_typing false "Error in typing:stop:".

Definition on_group_action (payload : jsval) : server -> outcome :=
  listener (destructure3 payload "chatId" "action" "userId")
    (fun '(chatId, action, userId) =>
    let data := rest_props payload ["chatId"; "action"; "userId"] in
    console_log "Group action:" ;;;
    try_catch
      (emit (ToRoomExcept chatId socket) "group:update"
         (JObj [("chatId", chatId); ("action", action); ("userId", userId);
                ("data", data)]) ;;;
       console_log "Group action broadcast successfully")
      (console_error "Error in group:action:")).

Definition on_group_join (payload : jsval) : server -> outcome :=
  listener (destructure1 payload "chatId") (fun chatId =>
    console_log "User joining group:" ;;;
    try_catch
      (modify (set_rooms (socket_join socket chatId)) ;;;
       st <- read ;;
       let user := registered socket st in
       (if truthy user
        then emit (ToRoomExcept chatId socket) "group:member_joined"
               (JObj [("chatId", chatId); ("user", user)])
        else ret tt) ;;;
       console_log "User joined group successfully")
      (console_error "Error in group:join:")).

Definition on_group_leave (payload : jsval) : server -> outcome :=
  listener (destructure1 payload "chatId") (fun chatId =>
    console_log "User leaving group:" ;;;
    try_catch
      (modify (set_rooms (socket_leave socket chatId)) ;;;
       st <- read ;;
       let user := registered socket st in
       (if truthy user
        then emit (ToRoomExcept chatId socket) "group:member_left"
               (JObj [("chatId", chatId); ("user", user)])
        else ret tt) ;;;
       console_log "User left group successfully")
      (console_error "Error in group:leave:")).

Definition on_error (error : jsval) : server -> outcome :=
  listener (Normal error) (fun error =>
    console_error "Socket error:" (Rejection error)).

Definition on_disconnect (reason : jsval) : server -> outcome :=
  listener (Normal reason) (fun _ =>
    console_log "User disconnected:" ;;;
    try_catch
      (modify (set_activeUsers (map_delete Nat.eqb socket)) ;;;
       st <- read ;;
       emit ToAll "users:active" (snapshot st) ;;;
       console_log "Active users after disconnect:")
      (console_error "Error in disconnect handler:")).

End Handlers.

(** [POST /api/save-token]: the body is destructured inside the [try].
    The route runs the JSON body parser first, so the body that reaches the
    handler is what the parser produced. *)
Definition save_token (body : jsval) : server -> outcome :=
  listener (Normal body) (fun body =>
    try_catch
      (p <- lift (destructure2 body "userId" "token") ;;
       modify (set_userTokens (map_set strict_eq (fst p) (snd p))) ;;;
       perform (Respond 200 (JObj [("message", JStr "Token saved successfully")])))
      (fun error =>
         console_error "Error saving token:" error ;;;
         perform (Respond 500 (JObj [("error", JStr "Failed to save token")]))))%block.

(** ** Events of one connection, and the transport around the handlers *)

Inductive client_event : Type :=
| Connect
| UserJoin (userData : jsval)
| MessagePrivate (payload : jsval)
| MessageGroup (payload : jsval)
| ChatJoin (chatId : jsval)
| TypingStart (payload : jsval)
| TypingStop (payload : jsval)
| GroupAction (payload : jsval)
| GroupJoin (payload : jsval)
| GroupLeave (payload : jsval)
| SocketError (error : jsval)
| Disconnect (reason : jsval).

(** The transport registers a socket before ['connection'] fires, and on a
    disconnect takes it out of every room and out of the live set before the
    ['disconnect'] listener runs. *)
Definition dispatch (socket : socket_id) (ev : client_event) (st : server) : outcome :=
  match ev with
  | Connect => on_connection (set_sockets (fun l => l ++ [socket]) st)
  | UserJoin userData => on_user_join socket userData st
  | MessagePrivate payload => on_message_private socket payload st
  | MessageGroup payload => on_message_group socket payload st
  | ChatJoin chatId => on_chat_join socket chatId st
  | TypingStart payload => on_typing_start socket payload st
  | TypingStop payload => on_typing_stop socket payload st
  | GroupAction payload => on_group_action socket payload st
  | GroupJoin payload => on_group_join socket payload st
  | GroupLeave payload => on_group_leave socket payload st
  | SocketError error => on_error error st
  | Disconnect reason =>
      on_disconnect socket reason
        (set_sockets (filter (fun id => negb (Nat.eqb id socket)))
           (set_rooms (leave_all socket) st))
  end.

(** The state a sequence of events leads to. An exception that leaves a
    listener is not handled anywhere in [server.js]: the run stops there. *)
Fixpoint run_events (evs : list (socket_id * client_event)) (st : server) : server :=
  match evs with
  | [] => st
  | (socket, ev) :: rest =>
      match dispatch socket ev st with
      | Returned st' _ => run_events rest st'
      | Escaped _ => st
      end
  end.

(** ** The asynchronous [new-message] handler

    The handler suspends at each [await]. A suspended handler holds the call
    it waits for; it resumes with the way the call settled and with the
    server state of that moment. *)

Inductive ext_call : Type :=
| PusherTrigger (channel event : string) (data : jsval)
| FcmSend (message : jsval).

Inductive settled : Type :=
| Fulfilled
| Rejected (e : exn).

Inductive async : Type :=
| Finished (out : list effect)
| Await (out : list effect) (call : ext_call) (resume : settled -> server -> async).

Definition and_then {A B : Type} (c : completion A) (k : A -> completion B)
  : completion B :=
  match c with
  | Normal a => k a
  | Throw e => Throw e
  end.

(** The object passed to [pusher.trigger]; [now] stands for [new Date()]. *)
Definition pusher_payload (data now : jsval) : completion jsval :=
  and_then (get_prop data "text") (fun text =>
  and_then (get_prop data "sender") (fun sender =>
  and_then (get_prop sender "uid") (fun uid =>
  and_then (get_prop sender "displayName") (fun displayName =>
  and_then (get_prop data "chatId") (fun chatId =>
  Normal (JObj [("message", text); ("senderId", uid);
                ("senderName", displayName); ("chatId", chatId);
                ("timestamp", now)])))))).

(** The FCM message built for [recipientToken]. *)
Definition fcm_message (data recipientToken : jsval) : completion jsval :=
  and_then (get_prop data "sender") (fun sender =>
  and_then (get_prop sender "displayName") (fun displayName =>
  and_then (get_prop data "text") (fun text =>
  and_then (get_prop data "chatId") (fun chatId =>
  and_then (get_prop sender "uid") (fun uid =>
  Normal (JObj
    [("token", recipientToken);
     ("notification",
       JObj [("title", JStr ("New message from " ++ to_js_string displayName)%string);
             ("body", text)]);
     ("data",
       JObj [("chatId", chatId); ("senderId", uid); ("type", JStr "new_message")]);
     ("android",
       JObj [("notification",
               JObj [("icon", JStr "chat_icon"); ("color", JStr "#1a1a1a");
                     ("clickAction", JStr "FLUTTER_NOTIFICATION_CLICK");
                     ("priority", JStr "high"); ("defaultSound", JBool true);
                     ("defaultVibrateTimings", JBool true)])])])))))).

Section NewMessage.
Variable socket : socket_id.
Variables data now : jsval.

Definition handling_failed (e : exn) : async :=
  Finished [ConsoleError "Error handling message:" e].

(** [socket.broadcast.emit('message-received', data)], the last statement of
    the outer [try]. *)
Definition broadcast_to_others (before : list effect) : async :=
  Finished (before ++ [Emit (ToOthers socket) "message-received" data]).

(** After [pusher.trigger] has settled. *)
Definition after_pusher (r : settled) (st : server) : async :=
  match r with
  | Rejected e => handling_failed e
  | Fulfilled =>
      match get_prop data "recipientId" with
      | Throw e => handling_failed e
      | Normal recipientId =>
          let recipientToken :=
            or_undefined (map_get strict_eq recipientId (userTokens st)) in
          if truthy recipientToken then
            match fcm_message data recipientToken with
            | Throw e => handling_failed e
            | Normal message =>
                Await [] (FcmSend message) (fun r' _ =>
                  match r' with
                  | Fulfilled =>
                      broadcast_to_others [ConsoleLog "Successfully sent FCM message:"]
                  | Rejected e =>
                      broadcast_to_others [ConsoleError "Error sending FCM message:" e]
                  end)
            end
          else broadcast_to_others []
      end
  end.

Definition on_new_message : async :=
  match pusher_payload data now with
  | Throw e => handling_failed e
  | Normal payload =>
      Await [] (PusherTrigger "chat-notifications" "new-message" payload) after_pusher
  end.

End NewMessage.

(** Runs a handler against the settlements it is given, in order; returns
    what it has output and the call it is still waiting for, if any. *)
Fixpoint settle (a : async) (answers : list (settled * server))
  : list effect * option ext_call :=
  match a with
  | Finished out => (out, None)
  | Await out call resume =>
      match answers with
      | [] => (out, Some call)
      | (r, st) :: rest =>
          let '(out', pending) := settle (resume r st) rest in
          (out ++ out', pending)
      end
  end.

(** ** What the handlers are measured against *)

Definition output (o : outcome) : list effect :=
  match o with
  | Returned _ out => out
  | Escaped _ => []
  end.

Definition receiver (d : delivery) : socket_id := fst (fst d).

(** [lookupByUid] as the registry contract words it: the first entry, in
    insertion order, whose identity has the wanted [uid]; an identity that
    has no [uid] to read does not have the wanted one. *)
Definition has_uid (uid : jsval) (entry : socket_id * jsval) : bool :=
  match get_prop (snd entry) "uid" with
  | Normal v => strict_eq v uid
  | Throw _ => false
  end.

Definition lookupByUid (users : list (socket_id * jsval)) (uid : jsval)
  : option socket_id :=
  option_map fst (find (has_uid uid) users).


(** *** Presence traces

    The joins and disconnects of a run, oldest first. *)

Inductive presence_event : Type :=
| Joins (c : socket_id) (identity : jsval)
| Leaves (c : socket_id) (reason : jsval).


(** Whether [c] is joined once [t] has happened, given that it was ([b]) or
    was not joined before: its latest join or disconnect decides. *)
Fixpoint joined_from (b : bool) (c : socket_id) (t : list presence_event) : bool :=
  match t with
  | [] => b
  | Joins c' _ :: rest => joined_from (if Nat.eqb c' c then true else b) c rest
  | Leaves c' _ :: rest => joined_from (if Nat.eqb c' c then false else b) c rest
  end.

Definition joined (c : socket_id) (t : list presence_event) : bool :=
  joined_from false c t.

Fixpoint leaves_later (c : socket_id) (t : list presence_event) : bool :=
  match t with
  | [] => false
  | Joins _ _ :: rest => leaves_later c rest
  | Leaves c' _ :: rest => Nat.eqb c' c || leaves_later c rest
  end.

(** The identity [c] announced last in [t], or [identity] if it announced
    none there. *)
Fixpoint latest_identity (c : socket_id) (identity : jsval) (t : list presence_event)
  : jsval :=
  match t with
  | [] => identity
  | Joins c' identity' :: rest =>
      latest_identity c (if Nat.eqb c' c then identity' else identity) rest
  | Leaves _ _ :: rest => latest_identity c identity rest
  end.

(** The connections still joined at the end of a trace, read off the trace:
    going through [post] in order, with [pre] what happened before, every
    join of a connection that was not joined at that point and does not
    disconnect afterwards contributes that connection, with the identity it
    announced last. *)
Fixpoint still_joined_from (pre post : list presence_event)
  : list (socket_id * jsval) :=
  match post with
  | [] => []
  | Joins c identity :: rest =>
      (if negb (joined c pre) && negb (leaves_later c rest)
       then [(c, latest_identity c identity rest)]
       else [])
      ++ still_joined_from (pre ++ [Joins c identity]) rest
  | Leaves c reason :: rest => still_joined_from (pre ++ [Leaves c reason]) rest
  end.

Definition still_joined (t : list presence_event) : list jsval :=
  map snd (still_joined_from [] t).

(** The same list when every connection joins at most once: the identities
    of the joins, in order, whose connection does not disconnect later. *)
Fixpoint joins_not_left (t : list presence_event) : list jsval :=
  match t with
  | [] => []
  | Joins c identity :: rest =>
      (if leaves_later c rest then [] else [identity]) ++ joins_not_left rest
  | Leaves _ _ :: rest => joins_not_left rest
  end.

Fixpoint joiners (t : list presence_event) : list socket_id :=
  match t with
  | [] => []
  | Joins c _ :: rest => c :: joiners rest
  | Leaves _ _ :: rest => joiners rest
  end.





(** ** Sample payloads and reachable states *)

Definition identity (uid : string) : jsval :=
  JObj [("uid", JStr uid); ("displayName", JStr uid)].

Definition private_message (to body : string) : jsval :=
  JObj [("to", JStr to); ("message", JStr body)].

Definition group_message (chatId body : string) : jsval :=
  JObj [("chatId", JStr chatId); ("message", JStr body)].

Definition received_in (from : jsval) (body chatId : string) : jsval :=
  JObj [("from", from); ("message", JStr body); ("chatId", JStr chatId)].

(** Three connections; the second and the third announce the same uid. *)
Definition two_claimants : server :=
  run_events
    [(1, Connect); (2, Connect); (3, Connect);
     (1, UserJoin (identity "ann")); (2, UserJoin (identity "bob"));
     (3, UserJoin (identity "bob"))]
    initial_server.

(** The same, but the first connection announced [null]. *)
Definition null_claimant : server :=
  run_events
    [(1, Connect); (2, Connect); (3, Connect);
     (1, UserJoin JNull); (2, UserJoin (identity "bob"));
     (3, UserJoin (identity "bob"))]
    initial_server.

(** Connections 1 and 2 are registered and in room "r1"; connection 3 is
    connected but neither registered nor in the room. *)
Definition one_room_events : list (nat * client_event) :=
  [(1, Connect); (2, Connect); (3, Connect);
   (1, UserJoin (identity "ann")); (2, UserJoin (identity "bob"));
   (1, ChatJoin (JStr "r1")); (2, ChatJoin (JStr "r1"))].

Definition one_room : server := run_events one_room_events initial_server.

(** A [new-message] payload, and a state that holds a token for its
    recipient. *)
Definition chat_message : jsval :=
  JObj [("text", JStr "hi"); ("sender", identity "ann"); ("chatId", JStr "r1");
        ("recipientId", JStr "bob")].

Definition with_token : server :=
  match save_token (JObj [("userId", JStr "bob"); ("token", JStr "tok")]) one_room with
  | Returned st _ => st
  | Escaped _ => one_room
  end.

(** Whether a state relation is kept by every run of a block. *)
Definition keeps {A : Type} (R : server -> server -> Prop) (b : block A) : Prop :=
  forall st, R st (fst (fst (b st))).

Definition same_tokens (st st' : server) : Prop := userTokens st' = userTokens st.

Definition same_users (st st' : server) : Prop := activeUsers st' = activeUsers st.


(** ** Further notions used by the properties *)

(** [v.k] when the read cannot raise: the property, or [undefined]. *)
Definition field (v : jsval) (k : string) : jsval :=
  match get_prop v k with
  | Normal x => x
  | Throw _ => JUndefined
  end.

(** Values compared by content when used as a [Map] or room key. *)
Definition primitive (v : jsval) : bool :=
  match v with
  | JArr _ | JObj _ => false
  | _ => true
  end.

(** Whether every effect that a block outputs satisfies [P]. *)
Definition says {A : Type} (P : effect -> Prop) (b : block A) : Prop :=
  forall st, Forall P (snd (fst (b st))).

(** An effect that cannot reach [socket]: console output, an HTTP response,
    or an emission that leaves the sending [socket] out. *)
Definition spares (socket : nat) (e : effect) : Prop :=
  match e with
  | Emit (ToRoomExcept _ sender) _ _ => sender = socket
  | Emit (ToOthers sender) _ _ => sender = socket
  | Emit _ _ _ => False
  | _ => True
  end.

(** The events whose handlers address a room. *)
Definition room_scoped (ev : client_event) : bool :=
  match ev with
  | MessageGroup _ | ChatJoin _ | TypingStart _ | TypingStop _
  | GroupAction _ | GroupJoin _ | GroupLeave _ => true
  | _ => false
  end.

(** The events whose handlers only read the state. *)
Definition read_only (ev : client_event) : bool :=
  match ev with
  | MessagePrivate _ | MessageGroup _ | TypingStart _ | TypingStop _
  | GroupAction _ | SocketError _ => true
  | _ => false
  end.

Definition unchanged (st st' : server) : Prop := st' = st.

(** Whether a [new-message] payload has no sender to read. *)
Definition lacks_sender (data : jsval) : bool :=
  match get_prop data "sender" with
  | Normal sender => nullish sender
  | Throw _ => true
  end.

(** Every room lists each of its members once. *)
Definition listed_once (rs : list (jsval * nat)) : Prop :=
  forall room, NoDup (room_members room rs).

Definition keeps_listed_once (st st' : server) : Prop :=
  listed_once (rooms st) -> listed_once (rooms st').

(** The token on record for the recipient of a [new-message] payload. *)
Definition recipientToken (data : jsval) (st : server) : jsval :=
  or_undefined (map_get strict_eq (field data "recipientId") (userTokens st)).

(** * Properties *)

(** ** The registry map *)

Section RegistryMap.
Implicit Types (m : list (socket_id * jsval)) (c : socket_id) (u : jsval).

Lemma map_has_in_keys m c :
  map_has Nat.eqb c m = true <-> In c (map fst m).
Proof.
  unfold map_has. rewrite existsb_exists, in_map_iff. split.
  - intros [e [He Hc]]. apply Nat.eqb_eq in Hc. now exists e.
  - intros [e [Hc He]]. exists e. split; [assumption|]. now apply Nat.eqb_eq.
Qed.

Lemma map_has_cons m k u c :
  map_has Nat.eqb c ((k, u) :: m) = Nat.eqb k c || map_has Nat.eqb c m.
Proof. reflexivity. Qed.



Lemma map_delete_absent m c :
  map_has Nat.eqb c m = false -> map_delete Nat.eqb c m = m.
Proof.
  unfold map_has. induction m as [|[k v] m IH]; cbn; [reflexivity|].
  intros H. apply orb_false_iff in H as [Hk Hm].
  rewrite Hk. now rewrite IH.
Qed.

Lemma map_delete_keys_incl m c k :
  In k (map fst (map_delete Nat.eqb c m)) -> In k (map fst m).
Proof.
  induction m as [|[k' v] m IH]; cbn; [tauto|].
  destruct (Nat.eqb k' c); cbn; intuition.
Qed.

Lemma map_set_keys m c u :
  map fst (map_set Nat.eqb c u m) =
  if map_has Nat.eqb c m then map fst m else map fst m ++ [c].
Proof.
  unfold map_has. induction m as [|[k v] m IH]; cbn; [reflexivity|].
  destruct (Nat.eqb k c); cbn; [reflexivity|].
  rewrite IH. now destruct (existsb (fun e => Nat.eqb (fst e) c) m).
Qed.

Lemma map_set_nodup m c u :
  NoDup (map fst m) -> NoDup (map fst (map_set Nat.eqb c u m)).
Proof.
  intros H. rewrite map_set_keys.
  destruct (map_has Nat.eqb c m) eqn:Hc; [assumption|].
  apply NoDup_app; [assumption|repeat constructor; cbn; tauto|].
  intros x Hx [<-|[]].
  apply map_has_in_keys in Hx. congruence.
Qed.

Lemma map_delete_nodup m c :
  NoDup (map fst m) -> NoDup (map fst (map_delete Nat.eqb c m)).
Proof.
  induction m as [|[k v] m IH]; cbn; [trivial|].
  intros H. inversion H as [|? ? Hk Hm]; subst.
  destruct (Nat.eqb k c); [assumption|]. cbn.
  constructor; [|now apply IH].
  intros Hin. apply Hk. eapply map_delete_keys_incl. eassumption.
Qed.

Lemma map_has_delete m c c' :
  NoDup (map fst m) ->
  map_has Nat.eqb c (map_delete Nat.eqb c' m) =
  negb (Nat.eqb c' c) && map_has Nat.eqb c m.
Proof.
  induction m as [|[k v] m IH]; intros H.
  - cbn. now rewrite andb_false_r.
  - inversion H as [|? ? Hk Hm]; subst. specialize (IH Hm).
    pose proof (map_has_in_keys m c) as Hin.
    unfold map_has in *. cbn.
    destruct (Nat.eqb_spec k c') as [Hkc|Hkc]; cbn.
    + subst k. destruct (Nat.eqb_spec c' c) as [Hc|Hc]; cbn; [|reflexivity].
      subst c'.
      destruct (existsb (fun e => Nat.eqb (fst e) c) m) eqn:E; [|reflexivity].
      exfalso. apply Hk. now apply Hin.
    + rewrite IH.
      destruct (Nat.eqb_spec k c) as [Hc|Hc]; cbn; [|reflexivity].
      subst k. destruct (Nat.eqb_spec c' c); [congruence|reflexivity].
Qed.

Lemma map_get_delete_other m c c' :
  c' <> c -> map_get Nat.eqb c' (map_delete Nat.eqb c m) = map_get Nat.eqb c' m.
Proof.
  intros Hne. induction m as [|[k v] m IH]; cbn; [reflexivity|].
  destruct (Nat.eqb_spec k c) as [Hk|Hk]; cbn.
  - subst k. destruct (Nat.eqb_spec c c'); [congruence|reflexivity].
  - now rewrite IH.
Qed.

Lemma map_get_absent m c :
  map_has Nat.eqb c m = false -> map_get Nat.eqb c m = None.
Proof.
  unfold map_has. induction m as [|[k v] m IH]; cbn; [reflexivity|].
  intros H. apply orb_false_iff in H as [Hk Hm]. rewrite Hk. now apply IH.
Qed.

End RegistryMap.

(** ** Presence traces *)

Lemma joined_from_app b c t1 t2 :
  joined_from b c (t1 ++ t2) = joined_from (joined_from b c t1) c t2.
Proof.
  revert b. induction t1 as [|[c' u|c' r] t1 IH]; intros b; cbn; auto.
Qed.
















(** ** Handler equations *)

Lemma on_user_join_eq socket userData st :
  on_user_join socket userData st =
  Returned (set_activeUsers (map_set Nat.eqb socket userData) st)
    [ConsoleLog "User joining:";
     Emit ToAll "users:active"
       (JArr (map snd (map_set Nat.eqb socket userData (activeUsers st))));
     ConsoleLog "User joined successfully:";
     ConsoleLog "Active users:"].
Proof. reflexivity. Qed.

Lemma on_disconnect_eq socket reason st :
  on_disconnect socket reason st =
  Returned (set_activeUsers (map_delete Nat.eqb socket) st)
    [ConsoleLog "User disconnected:";
     Emit ToAll "users:active"
       (JArr (map snd (map_delete Nat.eqb socket (activeUsers st))));
     ConsoleLog "Active users after disconnect:"].
Proof. reflexivity. Qed.

Section PrivateMessage.
Variables (socket : nat) (payload to message : jsval) (st : server).
Hypothesis Hpayload : destructure2 payload "to" "message" = Normal (to, message).

Lemma on_message_private_found id :
  recipientSocket (activeUsers st) to = Normal (Some id) ->
  on_message_private socket payload st =
  Returned st
    [ConsoleLog "Private message:";
     Emit (ToSocket id) "message:receive"
       (JObj [("from", registered socket st); ("message", message)]);
     ConsoleLog "Private message sent successfully"].
Proof.
  intros H. unfold on_message_private, listener. rewrite Hpayload.
  unfold try_catch, bind, read, lift, console_log, perform. cbn. rewrite H.
  reflexivity.
Qed.

Lemma on_message_private_missing :
  recipientSocket (activeUsers st) to = Normal None ->
  on_message_private socket payload st =
  Returned st [ConsoleLog "Private message:"; ConsoleLog "Recipient not found:"].
Proof.
  intros H. unfold on_message_private, listener. rewrite Hpayload.
  unfold try_catch, bind, read, lift, console_log, perform. cbn. rewrite H.
  reflexivity.
Qed.

Lemma on_message_private_threw e :
  recipientSocket (activeUsers st) to = Throw e ->
  on_message_private socket payload st =
  Returned st
    [ConsoleLog "Private message:"; ConsoleError "Error in message:private:" e].
Proof.
  intros H. unfold on_message_private, listener. rewrite Hpayload.
  unfold try_catch, bind, read, lift, console_log, perform. cbn. rewrite H.
  reflexivity.
Qed.

End PrivateMessage.

Lemma on_message_group_eq socket payload chatId message st :
  destructure2 payload "chatId" "message" = Normal (chatId, message) ->
  on_message_group socket payload st =
  Returned st
    [ConsoleLog "Group message:";
     Emit (ToRoomExcept chatId socket) "message:receive"
       (JObj [("from", registered socket st); ("message", message);
              ("chatId", chatId)]);
     ConsoleLog "Group message sent successfully"].
Proof.
  intros H. unfold on_message_group, listener. rewrite H. reflexivity.
Qed.

Lemma on_typing_eq socket isTyping label payload chatId user st :
  destructure2 payload "chatId" "user" = Normal (chatId, user) ->
  on_typing socket isTyping label payload st =
  Returned st
    [Emit (ToRoomExcept chatId socket) "typing:update"
       (JObj [("user", user); ("isTyping", JBool isTyping)])].
Proof.
  intros H. unfold on_typing, listener. rewrite H. reflexivity.
Qed.

Lemma get_prop_total v k :
  nullish v = false -> exists x, get_prop v k = Normal x.
Proof. destruct v; try discriminate; cbn; eauto. Qed.

(** Destructuring succeeds exactly on the values that are not nullish, and
    reads a missing field as [undefined]. *)
Lemma destructure2_total p a b :
  nullish p = false ->
  exists x y, destructure2 p a b = Normal (x, y) /\
              get_prop p a = Normal x /\ get_prop p b = Normal y.
Proof.
  intros H. unfold destructure2.
  destruct p; try discriminate; cbn; eauto.
Qed.

Lemma destructure2_nullish p a b :
  nullish p = true -> destructure2 p a b = Throw (TypeError a).
Proof. destruct p; try discriminate; reflexivity. Qed.

(** ** Scanning the registry *)

Lemma array_find_first {A : Type} (pred : A -> completion bool) earlier x later :
  Forall (fun y => pred y = Normal false) earlier ->
  pred x = Normal true ->
  array_find pred (earlier ++ x :: later) = Normal (Some x).
Proof.
  intros Hearlier Hx. induction Hearlier as [|y earlier Hy _ IH]; cbn.
  - now rewrite Hx.
  - now rewrite Hy.
Qed.

Lemma array_find_none {A : Type} (pred : A -> completion bool) l :
  (forall x, In x l -> pred x <> Normal true) ->
  array_find pred l = Normal None \/ exists e, array_find pred l = Throw e.
Proof.
  induction l as [|x l IH]; cbn; intros H; [now left|].
  destruct (pred x) as [[|]|e] eqn:E.
  - exfalso. apply (H x); auto.
  - apply IH. intros y Hy. apply H. now right.
  - right. now exists e.
Qed.

Lemma has_uid_of_uid_is to entry b :
  uid_is to entry = Normal b -> has_uid to entry = b.
Proof.
  unfold uid_is, has_uid. destruct (get_prop (snd entry) "uid"); congruence.
Qed.

Lemma find_first {A : Type} (f : A -> bool) earlier x later :
  Forall (fun y => f y = false) earlier -> f x = true ->
  find f (earlier ++ x :: later) = Some x.
Proof.
  intros Hearlier Hx. induction Hearlier as [|y earlier Hy _ IH]; cbn.
  - now rewrite Hx.
  - now rewrite Hy.
Qed.

(** When every identity in the registry can be read, the scan of the
    handler is the lookup of the contract. *)
Lemma recipientSocket_lookupByUid users to :
  Forall (fun entry => nullish (snd entry) = false) users ->
  recipientSocket users to = Normal (lookupByUid users to).
Proof.
  unfold recipientSocket, lookupByUid. intros H.
  induction H as [|[c u] users Hu _ IH]; [reflexivity|].
  cbn [array_find find]. unfold uid_is at 1, has_uid at 1. cbn [snd] in *.
  destruct (get_prop_total u "uid" Hu) as [v ->].
  destruct (strict_eq v to); [reflexivity|exact IH].
Qed.

(** ** Runs *)


Lemma latest_identity_no_join c u t :
  ~ In c (joiners t) -> latest_identity c u t = u.
Proof.
  revert u. induction t as [|[c' u'|c' r] t IH]; intros u H; cbn in *; auto.
  destruct (Nat.eqb_spec c' c); [tauto|]. apply IH. tauto.
Qed.

Lemma still_joined_from_once post : forall pre,
  NoDup (joiners post) ->
  (forall c, In c (joiners post) -> joined c pre = false) ->
  map snd (still_joined_from pre post) = joins_not_left post.
Proof.
  induction post as [|[c u|c r] post IH]; intros pre Hnd Hpre; [reflexivity| |].
  - cbn [still_joined_from joins_not_left joiners] in *.
    inversion Hnd as [|? ? Hc Hnd']; subst.
    rewrite map_app, Hpre by (now left). cbn [negb andb].
    rewrite latest_identity_no_join by assumption.
    rewrite IH; [now destruct (leaves_later c post)|assumption|].
    intros c' Hc'. unfold joined. rewrite joined_from_app. cbn.
    destruct (Nat.eqb_spec c c'); [congruence|]. apply Hpre. now right.
  - cbn [still_joined_from joins_not_left joiners] in *.
    rewrite IH; [reflexivity|assumption|].
    intros c' Hc'. unfold joined. rewrite joined_from_app. cbn.
    destruct (Nat.eqb c c'); [reflexivity|]. now apply Hpre.
Qed.

(** With one join per connection, the list of the still joined is the list
    of the joins that no disconnect of the same connection follows. *)
Lemma still_joined_once t :
  NoDup (joiners t) -> still_joined t = joins_not_left t.
Proof.
  intros H. apply still_joined_from_once; [assumption|reflexivity].
Qed.

(** ** Frames: what a handler leaves alone *)

Section Frames.
Variable R : server -> server -> Prop.
Hypothesis R_refl : forall st, R st st.
Hypothesis R_trans : forall st1 st2 st3, R st1 st2 -> R st2 st3 -> R st1 st3.

Lemma keeps_ret {A : Type} (a : A) : keeps R (ret a).
Proof. intros st. apply R_refl. Qed.

Lemma keeps_lift {A : Type} (c : completion A) : keeps R (lift c).
Proof. intros st. apply R_refl. Qed.

Lemma keeps_perform e : keeps R (perform e).
Proof. intros st. apply R_refl. Qed.

Lemma keeps_read : keeps R read.
Proof. intros st. apply R_refl. Qed.

Lemma keeps_modify f : (forall st, R st (f st)) -> keeps R (modify f).
Proof. intros H st. apply H. Qed.

Lemma keeps_bind {A B : Type} (c : block A) (k : A -> block B) :
  keeps R c -> (forall a, keeps R (k a)) -> keeps R (bind c k).
Proof.
  intros Hc Hk st. unfold bind. specialize (Hc st).
  destruct (c st) as [[st1 out1] [a|e]]; cbn in *; [|assumption].
  specialize (Hk a st1). destruct (k a st1) as [[st2 out2] r]; cbn in *.
  eapply R_trans; eassumption.
Qed.

Lemma keeps_try_catch body handler :
  keeps R body -> (forall e, keeps R (handler e)) -> keeps R (try_catch body handler).
Proof.
  intros Hb Hh st. unfold try_catch. specialize (Hb st).
  destruct (body st) as [[st1 out1] [a|e]]; cbn in *; [assumption|].
  specialize (Hh e st1). destruct (handler e st1) as [[st2 out2] r]; cbn in *.
  eapply R_trans; eassumption.
Qed.

Lemma keeps_listener {A : Type} (params : completion A) (body : A -> block unit)
  st st' out :
  (forall a, keeps R (body a)) ->
  listener params body st = Returned st' out -> R st st'.
Proof.
  intros Hb. unfold listener. destruct params as [a|e]; [|discriminate].
  specialize (Hb a st). destruct (body a st) as [[st1 out1] [u|e]]; [|discriminate].
  intros H. inversion H; subst. exact Hb.
Qed.

End Frames.

Ltac frame_step :=
  first
    [ apply keeps_bind; [assumption| |intros ?]
    | apply keeps_try_catch; [assumption| |intros ?]
    | apply keeps_ret; assumption
    | apply keeps_lift; assumption
    | apply keeps_perform; assumption
    | apply keeps_read; assumption
    | apply keeps_modify; intros ?; reflexivity
    | match goal with
      | |- keeps _ (match ?x with _ => _ end) => destruct x
      end ].

Ltac frame R_refl R_trans :=
  pose proof R_refl as Hrefl; pose proof R_trans as Htrans;
  unfold console_log, console_error, emit;
  repeat frame_step.

Ltac unfold_handlers H :=
  unfold on_connection, on_user_join, on_message_private, on_message_group,
    on_chat_join, on_typing_start, on_typing_stop, on_typing, on_group_action,
    on_group_join, on_group_leave, on_error, on_disconnect, save_token in H.

Lemma same_tokens_refl st : same_tokens st st.
Proof. reflexivity. Qed.

Lemma same_tokens_trans st1 st2 st3 :
  same_tokens st1 st2 -> same_tokens st2 st3 -> same_tokens st1 st3.
Proof. unfold same_tokens. congruence. Qed.

Lemma same_users_refl st : same_users st st.
Proof. reflexivity. Qed.

Lemma same_users_trans st1 st2 st3 :
  same_users st1 st2 -> same_users st2 st3 -> same_users st1 st3.
Proof. unfold same_users. congruence. Qed.

(** No socket event writes the token map. *)
Lemma dispatch_keeps_tokens socket ev st st' out :
  dispatch socket ev st = Returned st' out -> userTokens st' = userTokens st.
Proof.
  destruct ev; cbn [dispatch]; intros H; unfold_handlers H;
    apply (keeps_listener same_tokens) in H;
    try exact H;
    intros ?; frame same_tokens_refl same_tokens_trans.
Qed.

(** Only [user:join] and the disconnect write the registry, each at the
    entry of its own connection. *)
Lemma dispatch_registry socket ev st st' out :
  dispatch socket ev st = Returned st' out ->
  activeUsers st' =
  match ev with
  | UserJoin userData => map_set Nat.eqb socket userData (activeUsers st)
  | Disconnect _ => map_delete Nat.eqb socket (activeUsers st)
  | _ => activeUsers st
  end.
Proof.
  destruct ev; cbn [dispatch]; intros H;
    try (rewrite on_user_join_eq in H; inversion H; reflexivity);
    try (rewrite on_disconnect_eq in H; inversion H; reflexivity);
    unfold_handlers H;
    apply (keeps_listener same_users) in H;
    try exact H;
    intros ?; frame same_users_refl same_users_trans.
Qed.

Lemma run_events_keeps_tokens evs : forall st,
  userTokens (run_events evs st) = userTokens st.
Proof.
  induction evs as [|[socket ev] evs IH]; intros st; cbn [run_events]; [reflexivity|].
  destruct (dispatch socket ev st) as [st' out|e] eqn:E; [|reflexivity].
  rewrite IH. eapply dispatch_keeps_tokens. eassumption.
Qed.



Lemma registered_absent socket st :
  map_has Nat.eqb socket (activeUsers st) = false -> registered socket st = JUndefined.
Proof. intros H. unfold registered. now rewrite map_get_absent. Qed.

(** * The claims *)

(** C1, as amended. The handler scans the registry in insertion order and
    stops at the first entry whose identity's [uid] is the target: when the
    entries registered before that one all carry an identity whose [uid] can
    be read (none is [null] or [undefined]) and differs from the target, the
    scan returns that entry whatever follows it, so of two connections with
    the same [uid] the one registered first is chosen, and the private
    message is emitted to that connection and to no other. *)
Theorem C1_private_recipient_is_first_match
  (st : server) (socket : nat) (payload to message : jsval)
  (earlier later : list (nat * jsval)) (id : nat) (who : jsval) :
  destructure2 payload "to" "message" = Normal (to, message) ->
  activeUsers st = earlier ++ (id, who) :: later ->
  Forall (fun entry => uid_is to entry = Normal false) earlier ->
  uid_is to (id, who) = Normal true ->
  recipientSocket (activeUsers st) to = Normal (Some id) /\
  lookupByUid (activeUsers st) to = Some id /\
  emits (output (on_message_private socket payload st)) =
    [Emit (ToSocket id) "message:receive"
       (JObj [("from", registered socket st); ("message", message)])] /\
  map receiver (deliveries st (output (on_message_private socket payload st))) = [id].
Proof.
  intros Hpayload Husers Hearlier Hid.
  assert (Hscan : recipientSocket (activeUsers st) to = Normal (Some id)).
  { unfold recipientSocket. rewrite Husers.
    now rewrite (array_find_first _ _ _ _ Hearlier Hid). }
  split; [exact Hscan|]. split.
  - unfold lookupByUid. rewrite Husers, (find_first (has_uid to) earlier (id, who)).
    + reflexivity.
    + eapply Forall_impl; [|exact Hearlier].
      intros entry H. now apply has_uid_of_uid_is.
    + now apply has_uid_of_uid_is.
  - rewrite (on_message_private_found _ _ _ _ _ Hpayload _ Hscan).
    split; reflexivity.
Qed.

Lemma C1_private_recipient_is_first_match_witness :
  recipientSocket (activeUsers two_claimants) (JStr "bob") = Normal (Some 2) /\
  lookupByUid (activeUsers two_claimants) (JStr "bob") = Some 2 /\
  emits (output (on_message_private 1 (private_message "bob" "hi") two_claimants)) =
    [Emit (ToSocket 2) "message:receive"
       (JObj [("from", registered 1 two_claimants); ("message", JStr "hi")])] /\
  map receiver
    (deliveries two_claimants
       (output (on_message_private 1 (private_message "bob" "hi") two_claimants))) = [2].
Proof.
  apply (C1_private_recipient_is_first_match two_claimants 1
           (private_message "bob" "hi") (JStr "bob") (JStr "hi")
           [(1, identity "ann")] [(3, identity "bob")] 2 (identity "bob")).
  - reflexivity.
  - reflexivity.
  - repeat constructor.
  - reflexivity.
Defined.

(** C1 as stated fails where an entry registered before the first match
    carries [null]: the first entry whose uid is "bob" is connection 2, but
    reading [uid] of the [null] identity of connection 1 raises, the handler
    catches it, and nothing is delivered. *)
Lemma C1_counterexample :
  lookupByUid (activeUsers null_claimant) (JStr "bob") = Some 2 /\
  recipientSocket (activeUsers null_claimant) (JStr "bob") <>
    Normal (lookupByUid (activeUsers null_claimant) (JStr "bob")) /\
  on_message_private 3 (private_message "bob" "hi") null_claimant =
    Returned null_claimant
      [ConsoleLog "Private message:";
       ConsoleError "Error in message:private:" (TypeError "uid")] /\
  deliveries null_claimant
    (output (on_message_private 3 (private_message "bob" "hi") null_claimant)) = [].
Proof.
  split; [reflexivity|]. split; [discriminate|]. split; reflexivity.
Qed.

Lemma in_room_members room id rs :
  In id (room_members room rs) <-> in_room room id rs = true.
Proof.
  unfold room_members, in_room. rewrite in_map_iff, existsb_exists. split.
  - intros [m [Hid Hm]]. apply filter_In in Hm as [Hm Hroom].
    exists m. split; [assumption|]. rewrite Hroom, Hid. apply Nat.eqb_refl.
  - intros [m [Hm H]]. apply andb_true_iff in H as [Hroom Hid].
    apply Nat.eqb_eq in Hid. exists m. split; [assumption|].
    apply filter_In. now split.
Qed.

Lemma in_recipients_room st room sender id :
  In id (recipients st (ToRoomExcept room sender)) <->
  in_room room id (rooms st) = true /\ id <> sender.
Proof.
  cbn [recipients]. rewrite filter_In, in_room_members, negb_true_iff, Nat.eqb_neq.
  reflexivity.
Qed.


Lemma map_get_first_entry (before after : list (nat * jsval)) socket who :
  map_has Nat.eqb socket before = false ->
  map_get Nat.eqb socket (before ++ (socket, who) :: after) = Some who.
Proof.
  induction before as [|[k v] before IH]; cbn [app map_get].
  - intros _. now rewrite Nat.eqb_refl.
  - rewrite map_has_cons. intros H. apply orb_false_iff in H as [Hk Hb].
    rewrite Hk. now apply IH.
Qed.

(** C2. A group message from a member of the room [chatId] is delivered as
    [message:receive] to exactly the other members of the room: to every
    member but the sender, to nobody outside the room; and the [from] field
    of what is delivered is the identity [who] that the registry holds for
    the sending connection, whatever the payload itself says. *)
Theorem C2_group_message_reaches_other_members
  (st : server) (socket : nat) (payload chatId message who : jsval)
  (before after : list (nat * jsval)) :
  destructure2 payload "chatId" "message" = Normal (chatId, message) ->
  in_room chatId socket (rooms st) = true ->
  activeUsers st = before ++ (socket, who) :: after ->
  map_has Nat.eqb socket before = false ->
  exists out,
    on_message_group socket payload st = Returned st out /\
    forall (id : nat) (event : string) (body : jsval),
      In (id, event, body) (deliveries st out) <->
      in_room chatId id (rooms st) = true /\ id <> socket /\
      event = "message:receive" /\
      body = JObj [("from", who); ("message", message); ("chatId", chatId)].
Proof.
  intros Hpayload _ Husers Hfirst.
  assert (Hfrom : registered socket st = who).
  { unfold registered. rewrite Husers.
    now rewrite (map_get_first_entry _ _ _ _ Hfirst). }
  eexists. split; [exact (on_message_group_eq _ _ _ _ _ Hpayload)|].
  rewrite Hfrom.
  intros id event body. unfold deliveries. cbn [flat_map app]. rewrite app_nil_r, in_map_iff.
  split.
  - intros [id' [Heq Hin]]. inversion Heq; subst.
    apply in_recipients_room in Hin as [Hroom Hne]. repeat split; assumption.
  - intros (Hroom & Hne & -> & ->). exists id. split; [reflexivity|].
    apply in_recipients_room. now split.
Qed.

Lemma C2_group_message_reaches_other_members_witness :
  exists out,
    on_message_group 1
      (JObj [("chatId", JStr "r1"); ("message", JStr "hi"); ("from", identity "eve")])
      one_room = Returned one_room out /\
    forall (id : nat) (event : string) (body : jsval),
      In (id, event, body) (deliveries one_room out) <->
      in_room (JStr "r1") id (rooms one_room) = true /\ id <> 1 /\
      event = "message:receive" /\
      body = JObj [("from", identity "ann"); ("message", JStr "hi");
                   ("chatId", JStr "r1")].
Proof.
  apply (C2_group_message_reaches_other_members one_room 1
           (JObj [("chatId", JStr "r1"); ("message", JStr "hi");
                  ("from", identity "eve")])
           (JStr "r1") (JStr "hi") (identity "ann") [] [(2, identity "bob")]);
    reflexivity.
Defined.




(** C4, where the code departs from it. The broadcast is the last statement
    of the [try] that first awaits [pusher.trigger]: until that call has
    settled nothing is emitted, and when it is rejected the outer [catch]
    logs the error and the message is delivered to nobody, for every payload
    and in every state. A rejected FCM send has a [try] of its own and does
    not stop the broadcast: with the same payload the message then reaches
    the other connections. *)
Theorem C4_rejected_pusher_call_drops_the_message :
  (forall socket data now e st rest,
     emits (fst (settle (on_new_message socket data now) ((Rejected e, st) :: rest))) = []) /\
  (forall now,
     exists call,
       settle (on_new_message 1 chat_message now) [] = ([], Some call)) /\
  (forall now e,
     settle (on_new_message 1 chat_message now) [(Rejected e, with_token)] =
       ([ConsoleError "Error handling message:" e], None)) /\
  (forall now e,
     deliveries with_token
       (fst (settle (on_new_message 1 chat_message now)
               [(Fulfilled, with_token); (Rejected e, with_token)])) =
     [(2, "message-received", chat_message); (3, "message-received", chat_message)]).
Proof.
  split; [|split; [|split]].
  - intros socket data now e st rest. unfold on_new_message.
    destruct (pusher_payload data now); reflexivity.
  - intros now. eexists. reflexivity.
  - intros now e. reflexivity.
  - intros now e. reflexivity.
Qed.


(** The end-to-end scenario of the specification: A and B register and join
    "r1", A sends "hi" to the room; B alone receives it, from A. *)
Example end_to_end_group_message :
  deliveries one_room (output (on_message_group 1 (group_message "r1" "hi") one_room)) =
  [(2, "message:receive", received_in (identity "ann") "hi" "r1")].
Proof. reflexivity. Qed.

Example still_joined_sample :
  still_joined
    [Joins 1 (identity "ann"); Joins 2 (identity "bob"); Joins 1 (identity "amy");
     Leaves 2 JNull; Joins 3 (identity "amy"); Joins 2 (identity "ben")] =
  [identity "amy"; identity "amy"; identity "ben"].
Proof. reflexivity. Qed.

(** C6. A private message whose target matches the uid of no registered
    identity is dropped: the handler returns, leaves the state as it was,
    and its output holds console lines only, so that no event reaches any
    connection, the sender included, and no error is reported to it. *)
Theorem C6_unmatched_private_message_is_dropped
  (st : server) (socket : nat) (payload to message : jsval) :
  destructure2 payload "to" "message" = Normal (to, message) ->
  (forall entry, In entry (activeUsers st) -> uid_is to entry <> Normal true) ->
  exists out,
    on_message_private socket payload st = Returned st out /\
    emits out = [] /\
    deliveries st out = [] /\
    Forall (fun e => exists label, e = ConsoleLog label \/ exists x, e = ConsoleError label x)
      out.
Proof.
  intros Hpayload Hnone.
  destruct (array_find_none (uid_is to) (activeUsers st) Hnone) as [H|[e H]].
  - exists [ConsoleLog "Private message:"; ConsoleLog "Recipient not found:"].
    split.
    + apply (on_message_private_missing _ _ _ _ _ Hpayload).
      unfold recipientSocket. now rewrite H.
    + repeat split; repeat constructor; eexists; eauto.
  - exists [ConsoleLog "Private message:";
            ConsoleError "Error in message:private:" e].
    split.
    + apply (on_message_private_threw _ _ _ _ _ Hpayload).
      unfold recipientSocket. now rewrite H.
    + repeat split; repeat constructor; eexists; eauto.
Qed.

Lemma C6_unmatched_private_message_is_dropped_witness :
  exists out,
    on_message_private 1 (private_message "zoe" "hi") two_claimants =
      Returned two_claimants out /\
    emits out = [] /\
    deliveries two_claimants out = [] /\
    Forall (fun e => exists label, e = ConsoleLog label \/ exists x, e = ConsoleError label x)
      out.
Proof.
  apply (C6_unmatched_private_message_is_dropped two_claimants 1
           (private_message "zoe" "hi") (JStr "zoe") (JStr "hi")).
  - reflexivity.
  - intros entry Hin. cbn in Hin.
    destruct Hin as [<-|[<-|[<-|[]]]]; discriminate.
Defined.






(** C9. The [user] field of a [typing:update] is the [user] field of the
    inbound payload: the handlers never read the registry, so the update is
    the same whatever identity, if any, the sender registered. *)
Theorem C9_typing_user_is_taken_from_the_payload
  (st : server) (socket : nat) (payload chatId user : jsval) :
  destructure2 payload "chatId" "user" = Normal (chatId, user) ->
  on_typing_start socket payload st =
    Returned st [Emit (ToRoomExcept chatId socket) "typing:update"
                   (JObj [("user", user); ("isTyping", JBool true)])] /\
  on_typing_stop socket payload st =
    Returned st [Emit (ToRoomExcept chatId socket) "typing:update"
                   (JObj [("user", user); ("isTyping", JBool false)])] /\
  forall users,
    output (on_typing_start socket payload (set_activeUsers (fun _ => users) st)) =
      output (on_typing_start socket payload st) /\
    output (on_typing_stop socket payload (set_activeUsers (fun _ => users) st)) =
      output (on_typing_stop socket payload st).
Proof.
  intros H. unfold on_typing_start, on_typing_stop.
  rewrite !(on_typing_eq _ _ _ _ _ _ st H). repeat split.
  - now rewrite (on_typing_eq _ _ _ _ _ _ _ H).
  - now rewrite (on_typing_eq _ _ _ _ _ _ _ H).
Qed.

Lemma C9_typing_user_is_taken_from_the_payload_witness :
  on_typing_start 1 (JObj [("chatId", JStr "r1"); ("user", identity "eve")]) one_room =
    Returned one_room
      [Emit (ToRoomExcept (JStr "r1") 1) "typing:update"
         (JObj [("user", identity "eve"); ("isTyping", JBool true)])] /\
  on_typing_stop 1 (JObj [("chatId", JStr "r1"); ("user", identity "eve")]) one_room =
    Returned one_room
      [Emit (ToRoomExcept (JStr "r1") 1) "typing:update"
         (JObj [("user", identity "eve"); ("isTyping", JBool false)])] /\
  forall users,
    output (on_typing_start 1 (JObj [("chatId", JStr "r1"); ("user", identity "eve")])
              (set_activeUsers (fun _ => users) one_room)) =
      output (on_typing_start 1
                (JObj [("chatId", JStr "r1"); ("user", identity "eve")]) one_room) /\
    output (on_typing_stop 1 (JObj [("chatId", JStr "r1"); ("user", identity "eve")])
              (set_activeUsers (fun _ => users) one_room)) =
      output (on_typing_stop 1
                (JObj [("chatId", JStr "r1"); ("user", identity "eve")]) one_room).
Proof.
  apply (C9_typing_user_is_taken_from_the_payload one_room 1
           (JObj [("chatId", JStr "r1"); ("user", identity "eve")])
           (JStr "r1") (identity "eve")).
  reflexivity.
Defined.

Lemma map_get_set_same (tokens : list (jsval * jsval)) k v :
  strict_eq k k = true -> map_get strict_eq k (map_set strict_eq k v tokens) = Some v.
Proof.
  intros Hk. induction tokens as [|[k' v'] tokens IH]; cbn.
  - now rewrite Hk.
  - destruct (strict_eq k' k) eqn:E; cbn; rewrite E; [reflexivity|exact IH].
Qed.

Lemma save_token_eq body userId token st :
  destructure2 body "userId" "token" = Normal (userId, token) ->
  save_token body st =
  Returned (set_userTokens (map_set strict_eq userId token) st)
    [Respond 200 (JObj [("message", JStr "Token saved successfully")])].
Proof.
  intros H. unfold save_token, listener, try_catch, bind, lift. rewrite H.
  reflexivity.
Qed.

(** C10. The disconnect handler removes the registry entry of its own
    connection and changes nothing else: the other entries, the rooms, the
    live sockets and the token map stay as they were. No socket event writes
    the token map, so a token saved through [/api/save-token] is still
    returned for its user after any run of socket events, disconnects
    included. *)
Theorem C10_disconnect_leaves_the_token_map
  (st : server) (socket : nat) (reason body userId token : jsval)
  (evs : list (nat * client_event)) :
  destructure2 body "userId" "token" = Normal (userId, token) ->
  strict_eq userId userId = true ->
  (exists out,
     on_disconnect socket reason st =
       Returned (set_activeUsers (map_delete Nat.eqb socket) st) out /\
     userTokens (set_activeUsers (map_delete Nat.eqb socket) st) = userTokens st /\
     rooms (set_activeUsers (map_delete Nat.eqb socket) st) = rooms st /\
     sockets (set_activeUsers (map_delete Nat.eqb socket) st) = sockets st /\
     forall other, other <> socket ->
       map_get Nat.eqb other (activeUsers (set_activeUsers (map_delete Nat.eqb socket) st)) =
       map_get Nat.eqb other (activeUsers st)) /\
  (exists saved out,
     save_token body st = Returned saved out /\
     map_get strict_eq userId (userTokens saved) = Some token /\
     userTokens (run_events evs saved) = userTokens saved /\
     map_get strict_eq userId (userTokens (run_events evs saved)) = Some token).
Proof.
  intros Hbody Hkey. split.
  - eexists. split; [apply on_disconnect_eq|]. repeat split.
    intros other Hne. cbn [activeUsers set_activeUsers].
    now apply map_get_delete_other.
  - do 2 eexists. split; [apply (save_token_eq _ _ _ _ Hbody)|].
    rewrite run_events_keeps_tokens. cbn [userTokens set_userTokens].
    repeat split; now apply map_get_set_same.
Qed.

Lemma C10_disconnect_leaves_the_token_map_witness :
  (exists out,
     on_disconnect 2 JNull one_room =
       Returned (set_activeUsers (map_delete Nat.eqb 2) one_room) out /\
     userTokens (set_activeUsers (map_delete Nat.eqb 2) one_room) = userTokens one_room /\
     rooms (set_activeUsers (map_delete Nat.eqb 2) one_room) = rooms one_room /\
     sockets (set_activeUsers (map_delete Nat.eqb 2) one_room) = sockets one_room /\
     forall other, other <> 2 ->
       map_get Nat.eqb other (activeUsers (set_activeUsers (map_delete Nat.eqb 2) one_room)) =
       map_get Nat.eqb other (activeUsers one_room)) /\
  (exists saved out,
     save_token (JObj [("userId", JStr "bob"); ("token", JStr "tok")]) one_room =
       Returned saved out /\
     map_get strict_eq (JStr "bob") (userTokens saved) = Some (JStr "tok") /\
     userTokens (run_events [(2, Disconnect JNull)] saved) = userTokens saved /\
     map_get strict_eq (JStr "bob") (userTokens (run_events [(2, Disconnect JNull)] saved))
       = Some (JStr "tok")).
Proof.
  apply (C10_disconnect_leaves_the_token_map one_room 2 JNull
           (JObj [("userId", JStr "bob"); ("token", JStr "tok")])
           (JStr "bob") (JStr "tok") [(2, Disconnect JNull)]); reflexivity.
Defined.

(** * Further properties of the handlers *)

Lemma strict_eq_true a b : strict_eq a b = true -> a = b.
Proof.
  destruct a, b; cbn; try discriminate; intros H; try reflexivity.
  - apply Bool.eqb_prop in H. now subst.
  - apply Z.eqb_eq in H. now subst.
  - apply String.eqb_eq in H. now subst.
Qed.

Lemma strict_eq_primitive v : primitive v = true -> strict_eq v v = true.
Proof.
  destruct v; cbn; try discriminate; intros _; try reflexivity.
  - apply Bool.eqb_reflx.
  - apply Z.eqb_refl.
  - apply String.eqb_refl.
Qed.

Lemma map_get_set_own (m : list (nat * jsval)) c u :
  map_get Nat.eqb c (map_set Nat.eqb c u m) = Some u.
Proof.
  induction m as [|[k v] m IH]; cbn.
  - now rewrite Nat.eqb_refl.
  - destruct (Nat.eqb k c) eqn:E; cbn; rewrite E; [reflexivity|exact IH].
Qed.

Lemma map_get_set_other (m : list (nat * jsval)) c c' u :
  c' <> c -> map_get Nat.eqb c' (map_set Nat.eqb c u m) = map_get Nat.eqb c' m.
Proof.
  intros Hne. induction m as [|[k v] m IH]; cbn.
  - destruct (Nat.eqb_spec c c'); [congruence|reflexivity].
  - destruct (Nat.eqb_spec k c) as [Hk|Hk]; cbn.
    + subst k. destruct (Nat.eqb_spec c c'); [congruence|reflexivity].
    + now rewrite IH.
Qed.

Lemma run_events_nodup evs : forall st,
  NoDup (map fst (activeUsers st)) ->
  NoDup (map fst (activeUsers (run_events evs st))).
Proof.
  induction evs as [|[socket ev] evs IH]; intros st H; cbn [run_events]; [assumption|].
  destruct (dispatch socket ev st) as [st' out|e] eqn:E; [|assumption].
  apply IH. rewrite (dispatch_registry _ _ _ _ _ E).
  destruct ev; try assumption.
  - now apply map_set_nodup.
  - now apply map_delete_nodup.
Qed.

(** X1. Whatever events the server has processed, the registry holds at most
    one entry per connection. *)
Theorem X1_registry_has_one_entry_per_connection
  (evs : list (nat * client_event)) :
  NoDup (map fst (activeUsers (run_events evs initial_server))).
Proof. apply run_events_nodup. constructor. Qed.

Lemma server_eta st :
  mkServer (activeUsers st) (userTokens st) (rooms st) (sockets st) = st.
Proof. now destruct st. Qed.

(** X2. A disconnect of a connection that has no registry entry leaves the
    whole state as it was and rebroadcasts the unchanged presence list. *)
Theorem X2_disconnect_without_join_changes_nothing
  (st : server) (socket : nat) (reason : jsval) :
  map_has Nat.eqb socket (activeUsers st) = false ->
  on_disconnect socket reason st =
  Returned st
    [ConsoleLog "User disconnected:";
     Emit ToAll "users:active" (snapshot st);
     ConsoleLog "Active users after disconnect:"].
Proof.
  intros H. rewrite on_disconnect_eq. unfold set_activeUsers, snapshot, map_values.
  rewrite (map_delete_absent _ _ H), server_eta. reflexivity.
Qed.

Lemma X2_disconnect_without_join_changes_nothing_witness :
  on_disconnect 3 (JStr "transport close") one_room =
  Returned one_room
    [ConsoleLog "User disconnected:";
     Emit ToAll "users:active" (snapshot one_room);
     ConsoleLog "Active users after disconnect:"].
Proof.
  apply (X2_disconnect_without_join_changes_nothing one_room 3 (JStr "transport close")).
  reflexivity.
Defined.

(** X3. After [user:join] the registry returns the announced identity for
    the joining connection and what it returned before for every other one;
    a connection that was already registered keeps its place in the
    registry, a new one is added last; and the broadcast carries the
    snapshot of the registry as updated. *)
Theorem X3_user_join_registers_the_identity
  (st : server) (socket : nat) (userData : jsval) :
  exists st' out,
    on_user_join socket userData st = Returned st' out /\
    registered socket st' = userData /\
    (forall other, other <> socket -> registered other st' = registered other st) /\
    map fst (activeUsers st') =
      (if map_has Nat.eqb socket (activeUsers st)
       then map fst (activeUsers st)
       else map fst (activeUsers st) ++ [socket]) /\
    emits out = [Emit ToAll "users:active" (snapshot st')] /\
    userTokens st' = userTokens st /\ rooms st' = rooms st.
Proof.
  do 2 eexists. split; [apply on_user_join_eq|].
  unfold registered. cbn [activeUsers set_activeUsers].
  split; [now rewrite map_get_set_own|].
  split; [intros other Hne; now rewrite map_get_set_other|].
  split; [apply map_set_keys|]. repeat split.
Qed.

Lemma array_find_in {A : Type} (pred : A -> completion bool) l x :
  array_find pred l = Normal (Some x) -> In x l /\ pred x = Normal true.
Proof.
  induction l as [|y l IH]; cbn; [discriminate|].
  destruct (pred y) as [[|]|e] eqn:E; try discriminate.
  - intros H. inversion H; subst. split; [now left|assumption].
  - intros H. destruct (IH H). split; [now right|assumption].
Qed.

Lemma recipientSocket_registered users to id :
  recipientSocket users to = Normal (Some id) ->
  exists who, In (id, who) users /\ uid_is to (id, who) = Normal true.
Proof.
  unfold recipientSocket.
  destruct (array_find (uid_is to) users) as [[[id' who]|]|e] eqn:E; try discriminate.
  cbn. intros H. inversion H; subst.
  exists who. now apply array_find_in.
Qed.

(** X4. Once a connection has disconnected it has no registry entry left,
    whatever happened before, and no private message resolves to it. *)
Theorem X4_disconnected_connection_is_never_a_recipient
  (evs : list (nat * client_event)) (socket : nat) (reason : jsval) :
  exists st' out,
    dispatch socket (Disconnect reason) (run_events evs initial_server) =
      Returned st' out /\
    registered socket st' = JUndefined /\
    forall to, recipientSocket (activeUsers st') to <> Normal (Some socket).
Proof.
  cbn [dispatch]. rewrite on_disconnect_eq. do 2 eexists. split; [reflexivity|].
  cbn [activeUsers set_activeUsers set_sockets set_rooms].
  pose proof (run_events_nodup evs initial_server (NoDup_nil _)) as Hnd.
  assert (Hgone : map_has Nat.eqb socket
            (map_delete Nat.eqb socket
               (activeUsers (run_events evs initial_server))) = false).
  { rewrite map_has_delete by exact Hnd. now rewrite Nat.eqb_refl. }
  split.
  - apply registered_absent. exact Hgone.
  - intros to H. apply recipientSocket_registered in H as [who [Hin _]].
    assert (Hhas : map_has Nat.eqb socket
              (map_delete Nat.eqb socket
                 (activeUsers (run_events evs initial_server))) = true).
    { apply map_has_in_keys. apply in_map_iff. now exists (socket, who). }
    congruence.
Qed.

(** ** Rooms *)

Lemma in_room_app room id rs rs' :
  in_room room id (rs ++ rs') = in_room room id rs || in_room room id rs'.
Proof. unfold in_room. apply existsb_app. Qed.

Lemma in_room_join room id socket chatId rs :
  in_room room id (socket_join socket chatId rs) =
  in_room room id rs || (strict_eq chatId room && Nat.eqb socket id).
Proof.
  unfold socket_join. destruct (in_room chatId socket rs) eqn:E.
  - destruct (strict_eq chatId room && Nat.eqb socket id) eqn:F;
      [|now rewrite orb_false_r].
    apply andb_true_iff in F as [Hroom Hid].
    apply strict_eq_true in Hroom. apply Nat.eqb_eq in Hid. subst.
    now rewrite E.
  - rewrite in_room_app. f_equal. unfold in_room. cbn. now rewrite orb_false_r.
Qed.

Lemma in_room_leave_own socket chatId rs :
  in_room chatId socket (socket_leave socket chatId rs) = false.
Proof.
  unfold in_room, socket_leave.
  induction rs as [|m rs IH]; cbn; [reflexivity|].
  destruct (strict_eq (fst m) chatId && Nat.eqb (snd m) socket) eqn:E; cbn;
    [exact IH|]. now rewrite E, IH.
Qed.

Lemma in_room_leave_other room other socket chatId rs :
  other <> socket ->
  in_room room other (socket_leave socket chatId rs) = in_room room other rs.
Proof.
  intros Hne. unfold in_room, socket_leave.
  induction rs as [|m rs IH]; [reflexivity|]. cbn [filter existsb].
  destruct (strict_eq (fst m) chatId && Nat.eqb (snd m) socket) eqn:E; cbn [negb].
  - rewrite IH. apply andb_true_iff in E as [_ Hm]. apply Nat.eqb_eq in Hm.
    destruct (Nat.eqb_spec (snd m) other); [congruence|].
    now rewrite andb_false_r.
  - cbn [existsb]. now rewrite IH.
Qed.

Lemma on_chat_join_eq socket chatId st :
  on_chat_join socket chatId st =
  Returned (set_rooms (socket_join socket chatId) st)
    [ConsoleLog "Joining chat:";
     ConsoleLog ("User " ++ decimal (Z.of_nat socket) ++ " joined chat "
                   ++ to_js_string chatId)%string].
Proof. reflexivity. Qed.

Lemma on_group_join_eq socket payload chatId st :
  destructure1 payload "chatId" = Normal chatId ->
  on_group_join socket payload st =
  Returned (set_rooms (socket_join socket chatId) st)
    (ConsoleLog "User joining group:"
     :: (if truthy (registered socket st)
         then [Emit (ToRoomExcept chatId socket) "group:member_joined"
                 (JObj [("chatId", chatId); ("user", registered socket st)])]
         else [])
     ++ [ConsoleLog "User joined group successfully"]).
Proof.
  intros H. unfold on_group_join, listener. rewrite H.
  unfold try_catch, bind, modify, read, console_log, emit, perform, ret.
  change (registered socket (set_rooms (socket_join socket chatId) st))
    with (registered socket st).
  destruct (truthy (registered socket st)); reflexivity.
Qed.

Lemma on_group_leave_eq socket payload chatId st :
  destructure1 payload "chatId" = Normal chatId ->
  on_group_leave socket payload st =
  Returned (set_rooms (socket_leave socket chatId) st)
    (ConsoleLog "User leaving group:"
     :: (if truthy (registered socket st)
         then [Emit (ToRoomExcept chatId socket) "group:member_left"
                 (JObj [("chatId", chatId); ("user", registered socket st)])]
         else [])
     ++ [ConsoleLog "User left group successfully"]).
Proof.
  intros H. unfold on_group_leave, listener. rewrite H.
  unfold try_catch, bind, modify, read, console_log, emit, perform, ret.
  change (registered socket (set_rooms (socket_leave socket chatId) st))
    with (registered socket st).
  destruct (truthy (registered socket st)); reflexivity.
Qed.

(** X5. [chat:join] with a room key that is a primitive value makes the
    connection a member of that room; joining the same room again changes
    nothing; the membership of the other connections, the registry and the
    token map are untouched, and nothing is emitted. *)
Theorem X5_chat_join_is_idempotent
  (st : server) (socket : nat) (chatId : jsval) :
  primitive chatId = true ->
  exists st1 out,
    on_chat_join socket chatId st = Returned st1 out /\
    in_room chatId socket (rooms st1) = true /\
    on_chat_join socket chatId st1 = Returned st1 out /\
    (forall room other, other <> socket ->
       in_room room other (rooms st1) = in_room room other (rooms st)) /\
    activeUsers st1 = activeUsers st /\
    userTokens st1 = userTokens st /\
    emits out = [].
Proof.
  intros Hprim. apply strict_eq_primitive in Hprim.
  do 2 eexists. split; [apply on_chat_join_eq|].
  cbn [rooms set_rooms activeUsers userTokens].
  assert (Hin : in_room chatId socket (socket_join socket chatId (rooms st)) = true).
  { rewrite in_room_join, Hprim, Nat.eqb_refl. apply orb_true_r. }
  split; [exact Hin|]. split.
  - rewrite on_chat_join_eq. f_equal. unfold set_rooms at 1.
    cbn [rooms set_rooms activeUsers userTokens sockets].
    unfold socket_join at 1. rewrite Hin. reflexivity.
  - split; [|repeat split].
    intros room other Hne. rewrite in_room_join.
    destruct (Nat.eqb_spec socket other); [congruence|].
    now rewrite andb_false_r, orb_false_r.
Qed.

Lemma X5_chat_join_is_idempotent_witness :
  exists st1 out,
    on_chat_join 3 (JStr "r1") one_room = Returned st1 out /\
    in_room (JStr "r1") 3 (rooms st1) = true /\
    on_chat_join 3 (JStr "r1") st1 = Returned st1 out /\
    (forall room other, other <> 3 ->
       in_room room other (rooms st1) = in_room room other (rooms one_room)) /\
    activeUsers st1 = activeUsers one_room /\
    userTokens st1 = userTokens one_room /\
    emits out = [].
Proof.
  apply (X5_chat_join_is_idempotent one_room 3 (JStr "r1")). reflexivity.
Defined.

Lemma deliveries_room_send st room sender ev body before after :
  Forall (fun e => is_emit e = false) before ->
  Forall (fun e => is_emit e = false) after ->
  forall id ev' body',
    In (id, ev', body')
       (deliveries st (before ++ Emit (ToRoomExcept room sender) ev body :: after)) <->
    in_room room id (rooms st) = true /\ id <> sender /\ ev' = ev /\ body' = body.
Proof.
  intros Hb Ha id ev' body'.
  assert (Hsilent : forall l, Forall (fun e => is_emit e = false) l ->
                              deliveries st l = []).
  { intros l Hl. induction Hl as [|e l He _ IH]; [reflexivity|].
    unfold deliveries in *. cbn [flat_map]. rewrite IH.
    destruct e; try discriminate; reflexivity. }
  unfold deliveries. rewrite flat_map_app. cbn [flat_map].
  fold (deliveries st before). fold (deliveries st after).
  rewrite (Hsilent _ Hb), (Hsilent _ Ha), app_nil_r. cbn [app].
  rewrite in_map_iff. split.
  - intros [id' [Heq Hin]]. inversion Heq; subst.
    apply in_recipients_room in Hin as [Hroom Hne]. repeat split; assumption.
  - intros (Hroom & Hne & -> & ->). exists id. split; [reflexivity|].
    apply in_recipients_room. now split.
Qed.

Lemma deliveries_silent st out :
  Forall (fun e => is_emit e = false) out -> deliveries st out = [].
Proof.
  intros Hl. induction Hl as [|e l He _ IH]; [reflexivity|].
  unfold deliveries in *. cbn [flat_map]. rewrite IH.
  destruct e; try discriminate; reflexivity.
Qed.

(** X6. After [group:leave] of a room named by a primitive key the
    connection is no longer a member of the room, the membership of every
    other connection is as before, the [group:member_left] notice does not
    come back to the leaver, and a later group message to that room, from
    any sender, is not delivered to it. *)
Theorem X6_group_leave_ends_membership
  (st : server) (socket sender : nat) (payload chatId later message : jsval) :
  destructure1 payload "chatId" = Normal chatId ->
  primitive chatId = true ->
  destructure2 later "chatId" "message" = Normal (chatId, message) ->
  exists st1 out,
    on_group_leave socket payload st = Returned st1 out /\
    in_room chatId socket (rooms st1) = false /\
    (forall room other, other <> socket ->
       in_room room other (rooms st1) = in_room room other (rooms st)) /\
    ~ In socket (map receiver (deliveries st1 out)) /\
    ~ In socket
        (map receiver (deliveries st1 (output (on_message_group sender later st1)))).
Proof.
  intros Hpayload _ Hlater.
  do 2 eexists. split; [apply (on_group_leave_eq _ _ _ _ Hpayload)|].
  cbn [rooms set_rooms].
  split; [apply in_room_leave_own|].
  split; [intros room other Hne; now apply in_room_leave_other|].
  split.
  - intros Hin. apply in_map_iff in Hin as [[[id ev] body] [Hid Hin]].
    cbn in Hid. subst id.
    destruct (truthy (registered socket st)).
    + apply (deliveries_room_send _ chatId socket _ _
               [ConsoleLog "User leaving group:"]
               [ConsoleLog "User left group successfully"]) in Hin;
        [|repeat constructor|repeat constructor].
      destruct Hin as (_ & Hne & _). now apply Hne.
    + rewrite deliveries_silent in Hin by (repeat constructor). exact Hin.
  - rewrite (on_message_group_eq _ _ _ _ _ Hlater). cbn [output].
    intros Hin. apply in_map_iff in Hin as [[[id ev] body] [Hid Hin]].
    cbn in Hid. subst id.
    apply (deliveries_room_send _ chatId sender _ _
             [ConsoleLog "Group message:"]
             [ConsoleLog "Group message sent successfully"]) in Hin;
      [|repeat constructor|repeat constructor].
    destruct Hin as (Hroom & _). cbn [rooms set_rooms] in Hroom.
    now rewrite in_room_leave_own in Hroom.
Qed.

Lemma X6_group_leave_ends_membership_witness :
  exists st1 out,
    on_group_leave 2 (JObj [("chatId", JStr "r1")]) one_room = Returned st1 out /\
    in_room (JStr "r1") 2 (rooms st1) = false /\
    (forall room other, other <> 2 ->
       in_room room other (rooms st1) = in_room room other (rooms one_room)) /\
    ~ In 2 (map receiver (deliveries st1 out)) /\
    ~ In 2
        (map receiver
           (deliveries st1 (output (on_message_group 1 (group_message "r1" "hi") st1)))).
Proof.
  apply (X6_group_leave_ends_membership one_room 2 1
           (JObj [("chatId", JStr "r1")]) (JStr "r1")
           (group_message "r1" "hi") (JStr "hi")); reflexivity.
Defined.

(** X7. [group:join] of a room named by a primitive key makes the
    connection a member of the room, but announces it only when the
    registry holds a truthy identity for the connection: then
    [group:member_joined], carrying that identity, goes to exactly the
    members the room had before, the joiner excepted; otherwise nothing is
    delivered to anybody. *)
Theorem X7_group_join_announces_registered_connections
  (st : server) (socket : nat) (payload chatId : jsval) :
  destructure1 payload "chatId" = Normal chatId ->
  primitive chatId = true ->
  exists st1 out,
    on_group_join socket payload st = Returned st1 out /\
    in_room chatId socket (rooms st1) = true /\
    activeUsers st1 = activeUsers st /\
    forall (id : nat) (event : string) (body : jsval),
      In (id, event, body) (deliveries st1 out) <->
      truthy (registered socket st) = true /\
      in_room chatId id (rooms st) = true /\ id <> socket /\
      event = "group:member_joined" /\
      body = JObj [("chatId", chatId); ("user", registered socket st)].
Proof.
  intros Hpayload Hprim. apply strict_eq_primitive in Hprim.
  do 2 eexists. split; [apply (on_group_join_eq _ _ _ _ Hpayload)|].
  cbn [rooms set_rooms].
  split; [rewrite in_room_join, Hprim, Nat.eqb_refl; apply orb_true_r|].
  split; [reflexivity|].
  intros id event body. destruct (truthy (registered socket st)).
  - etransitivity;
      [apply (deliveries_room_send _ chatId socket _ _
                [ConsoleLog "User joining group:"]
                [ConsoleLog "User joined group successfully"]);
       repeat constructor|].
    cbn [rooms set_rooms]. rewrite in_room_join. split.
    + intros (Hroom & Hne & Hev & Hbody). repeat split; try assumption.
      destruct (Nat.eqb_spec socket id); [congruence|].
      now rewrite andb_false_r, orb_false_r in Hroom.
    + intros (_ & Hroom & Hne & Hev & Hbody). repeat split; try assumption.
      now rewrite Hroom.
  - rewrite deliveries_silent by (repeat constructor). split; [intros []|].
    intros (H & _). discriminate H.
Qed.

Lemma X7_group_join_announces_registered_connections_witness :
  exists st1 out,
    on_group_join 1 (JObj [("chatId", JStr "r1")]) one_room = Returned st1 out /\
    in_room (JStr "r1") 1 (rooms st1) = true /\
    activeUsers st1 = activeUsers one_room /\
    forall (id : nat) (event : string) (body : jsval),
      In (id, event, body) (deliveries st1 out) <->
      truthy (identity "ann") = true /\
      in_room (JStr "r1") id (rooms one_room) = true /\ id <> 1 /\
      event = "group:member_joined" /\
      body = JObj [("chatId", JStr "r1"); ("user", identity "ann")].
Proof.
  apply (X7_group_join_announces_registered_connections one_room 1
           (JObj [("chatId", JStr "r1")]) (JStr "r1")); reflexivity.
Defined.

(** The announce case on a run: connection 1, registered as "ann", joins
    "r1"; connection 2, the other member, is told so, and nobody else. *)
Example group_join_is_announced :
  match on_group_join 1 (JObj [("chatId", JStr "r1")]) one_room with
  | Returned st1 out =>
      deliveries st1 out =
        [(2, "group:member_joined",
          JObj [("chatId", JStr "r1"); ("user", identity "ann")])]
  | Escaped _ => False
  end.
Proof. reflexivity. Qed.

Lemma room_members_app room rs rs' :
  room_members room (rs ++ rs') = room_members room rs ++ room_members room rs'.
Proof. unfold room_members. now rewrite filter_app, map_app. Qed.

Lemma NoDup_map_filter {A B : Type} (h : A -> B) (f : A -> bool) l :
  NoDup (map h l) -> NoDup (map h (filter f l)).
Proof.
  induction l as [|x l IH]; cbn; intros H; [constructor|].
  inversion H as [|? ? Hx Hl]; subst.
  destruct (f x); cbn; [constructor|]; auto.
  intros Hin. apply Hx. apply in_map_iff in Hin as [y [Hy Hin]].
  apply filter_In in Hin as [Hin _]. apply in_map_iff. now exists y.
Qed.

Lemma filter_swap {A : Type} (f g : A -> bool) l :
  filter f (filter g l) = filter g (filter f l).
Proof.
  induction l as [|x l IH]; cbn; [reflexivity|].
  destruct (f x) eqn:F, (g x) eqn:G; cbn; rewrite ?F, ?G, IH; reflexivity.
Qed.

Lemma listed_once_filter f rs : listed_once rs -> listed_once (filter f rs).
Proof.
  intros H room. unfold room_members. rewrite filter_swap.
  apply NoDup_map_filter. apply H.
Qed.

Lemma listed_once_join socket chatId rs :
  listed_once rs -> listed_once (socket_join socket chatId rs).
Proof.
  intros H room. unfold socket_join.
  destruct (in_room chatId socket rs) eqn:E; [apply H|].
  rewrite room_members_app. unfold room_members at 2. cbn [filter fst].
  destruct (strict_eq chatId room) eqn:F; cbn [map snd].
  - apply strict_eq_true in F. subst room.
    apply NoDup_app; [apply H|repeat constructor; cbn; tauto|].
    intros x Hx [<-|[]]. apply in_room_members in Hx. congruence.
  - rewrite app_nil_r. apply H.
Qed.

Lemma keeps_listed_once_refl st : keeps_listed_once st st.
Proof. intros H. exact H. Qed.

Lemma keeps_listed_once_trans st1 st2 st3 :
  keeps_listed_once st1 st2 -> keeps_listed_once st2 st3 -> keeps_listed_once st1 st3.
Proof. unfold keeps_listed_once. auto. Qed.

Ltac rooms_step :=
  first
    [ apply keeps_bind; [assumption| |intros ?]
    | apply keeps_try_catch; [assumption| |intros ?]
    | apply keeps_ret; assumption
    | apply keeps_lift; assumption
    | apply keeps_perform; assumption
    | apply keeps_read; assumption
    | apply keeps_modify; intros ? ?;
        first [ assumption
              | apply listed_once_join; assumption
              | apply listed_once_filter; assumption ]
    | match goal with
      | |- keeps _ (match ?x with _ => _ end) => destruct x
      end ].

Lemma dispatch_listed_once socket ev st st' out :
  dispatch socket ev st = Returned st' out ->
  listed_once (rooms st) -> listed_once (rooms st').
Proof.
  pose proof keeps_listed_once_refl as Hrefl.
  pose proof keeps_listed_once_trans as Htrans.
  destruct ev; cbn [dispatch]; intros H Hst; unfold_handlers H;
    apply (keeps_listener keeps_listed_once) in H;
    try (apply H; first [exact Hst | apply listed_once_filter; exact Hst]);
    intros ?; unfold console_log, console_error, emit; repeat rooms_step.
Qed.

Lemma run_events_listed_once evs : forall st,
  listed_once (rooms st) -> listed_once (rooms (run_events evs st)).
Proof.
  induction evs as [|[socket ev] evs IH]; intros st H; cbn [run_events]; [assumption|].
  destruct (dispatch socket ev st) as [st' out|e] eqn:E; [|assumption].
  apply IH. eapply dispatch_listed_once; eassumption.
Qed.

(** X16. Whatever events the server has processed, no room lists a
    connection twice, so that a group message is delivered at most once to
    each connection. *)
Theorem X16_group_message_is_delivered_once_per_member
  (evs : list (nat * client_event)) (sender : nat) (payload chatId message : jsval) :
  destructure2 payload "chatId" "message" = Normal (chatId, message) ->
  (forall room, NoDup (room_members room (rooms (run_events evs initial_server)))) /\
  NoDup (map receiver
           (deliveries (run_events evs initial_server)
              (output (on_message_group sender payload
                         (run_events evs initial_server))))).
Proof.
  intros Hpayload.
  assert (Hrooms : listed_once (rooms (run_events evs initial_server))).
  { apply run_events_listed_once. intros room. constructor. }
  split; [exact Hrooms|].
  rewrite (on_message_group_eq _ _ _ _ _ Hpayload). cbn [output].
  unfold deliveries. cbn [flat_map app]. rewrite app_nil_r, map_map.
  cbn [receiver fst]. rewrite map_id. cbn [recipients].
  apply NoDup_filter. apply Hrooms.
Qed.

Lemma X16_group_message_is_delivered_once_per_member_witness :
  (forall room,
     NoDup (room_members room
              (rooms (run_events (one_room_events ++ [(1, ChatJoin (JStr "r1"))])
                        initial_server)))) /\
  NoDup (map receiver
           (deliveries
              (run_events (one_room_events ++ [(1, ChatJoin (JStr "r1"))]) initial_server)
              (output (on_message_group 2 (group_message "r1" "hi")
                         (run_events (one_room_events ++ [(1, ChatJoin (JStr "r1"))])
                            initial_server))))).
Proof.
  apply (X16_group_message_is_delivered_once_per_member
           (one_room_events ++ [(1, ChatJoin (JStr "r1"))]) 2
           (group_message "r1" "hi") (JStr "r1") (JStr "hi")).
  reflexivity.
Defined.

(** *** What a handler says *)

Section Says.
Variable P : effect -> Prop.

Lemma says_ret {A : Type} (a : A) : says P (ret a).
Proof. intros st. constructor. Qed.

Lemma says_lift {A : Type} (c : completion A) : says P (lift c).
Proof. intros st. constructor. Qed.

Lemma says_read : says P read.
Proof. intros st. constructor. Qed.

Lemma says_modify f : says P (modify f).
Proof. intros st. constructor. Qed.

Lemma says_perform e : P e -> says P (perform e).
Proof. intros H st. cbn. now constructor. Qed.

Lemma says_bind {A B : Type} (c : block A) (k : A -> block B) :
  says P c -> (forall a, says P (k a)) -> says P (bind c k).
Proof.
  intros Hc Hk st. unfold bind. specialize (Hc st).
  destruct (c st) as [[st1 out1] [a|e]]; cbn in *; [|assumption].
  specialize (Hk a st1). destruct (k a st1) as [[st2 out2] r]; cbn in *.
  apply Forall_app. now split.
Qed.

Lemma says_try_catch body handler :
  says P body -> (forall e, says P (handler e)) -> says P (try_catch body handler).
Proof.
  intros Hb Hh st. unfold try_catch. specialize (Hb st).
  destruct (body st) as [[st1 out1] [a|e]]; cbn in *; [assumption|].
  specialize (Hh e st1). destruct (handler e st1) as [[st2 out2] r]; cbn in *.
  apply Forall_app. now split.
Qed.

Lemma says_listener {A : Type} (params : completion A) (body : A -> block unit) st :
  (forall a, says P (body a)) -> Forall P (output (listener params body st)).
Proof.
  intros Hb. unfold listener. destruct params as [a|e]; [|constructor].
  specialize (Hb a st). destruct (body a st) as [[st1 out1] [u|e]]; [|constructor].
  exact Hb.
Qed.

End Says.

Ltac says_step :=
  first
    [ apply says_bind; [|intros ?]
    | apply says_try_catch; [|intros ?]
    | apply says_ret
    | apply says_lift
    | apply says_read
    | apply says_modify
    | apply says_perform; cbn; auto
    | match goal with
      | |- says _ (match ?x with _ => _ end) => destruct x
      end ].

Lemma dispatch_spares socket ev st :
  room_scoped ev = true -> Forall (spares socket) (output (dispatch socket ev st)).
Proof.
  destruct ev; try discriminate; intros _; cbn [dispatch];
    unfold on_message_group, on_chat_join, on_typing_start, on_typing_stop,
      on_typing, on_group_action, on_group_join, on_group_leave;
    apply says_listener; intros ?;
    unfold console_log, console_error, emit; repeat says_step.
Qed.

Lemma spares_not_received socket st out :
  Forall (spares socket) out -> ~ In socket (map receiver (deliveries st out)).
Proof.
  intros H Hin. apply in_map_iff in Hin as [[[id ev] body] [Hid Hin]].
  cbn in Hid. subst id. unfold deliveries in Hin. apply in_flat_map in Hin as [e [He Hin]].
  rewrite Forall_forall in H. specialize (H e He).
  destruct e as [| |t ev' body'|]; try contradiction.
  apply in_map_iff in Hin as [id [Heq Hin]]. inversion Heq; subst.
  destruct t as [|id'|room sender|sender]; cbn in H; try contradiction; subst sender;
    cbn [recipients] in Hin; apply filter_In in Hin as [_ Hne];
    rewrite Nat.eqb_refl in Hne; discriminate.
Qed.

(** X15. The handlers that address a room never send anything back to the
    connection the event came from: whatever the payload and the state, no
    event of [message:group], [chat:join], [typing:start], [typing:stop],
    [group:action], [group:join] or [group:leave] is delivered to its own
    sender. *)
Theorem X15_room_events_are_never_echoed
  (st st' : server) (socket : nat) (ev : client_event) :
  room_scoped ev = true ->
  ~ In socket (map receiver (deliveries st' (output (dispatch socket ev st)))).
Proof.
  intros H. apply spares_not_received. now apply dispatch_spares.
Qed.

Lemma X15_room_events_are_never_echoed_witness :
  ~ In 1 (map receiver
            (deliveries one_room
               (output (dispatch 1 (TypingStart (JObj [("chatId", JStr "r1")])) one_room)))).
Proof.
  apply (X15_room_events_are_never_echoed one_room one_room 1
           (TypingStart (JObj [("chatId", JStr "r1")]))).
  reflexivity.
Defined.

(** ** The group-action relay *)

Lemma own_prop_unnamed k named fields :
  own_prop k
    (filter (fun kv : string * jsval => negb (existsb (String.eqb (fst kv)) named))
       fields) =
  if existsb (String.eqb k) named then JUndefined else own_prop k fields.
Proof.
  induction fields as [|[k' v] fields IH]; cbn [filter own_prop fst].
  - now destruct (existsb (String.eqb k) named).
  - destruct (String.eqb_spec k k') as [Hk|Hk].
    + subst k'. destruct (existsb (String.eqb k) named) eqn:E; cbn [negb].
      * exact IH.
      * cbn [own_prop]. now rewrite String.eqb_refl.
    + destruct (existsb (String.eqb k') named); cbn [negb]; [exact IH|].
      cbn [own_prop]. destruct (String.eqb_spec k k'); [congruence|exact IH].
Qed.

(** X8. [group:action] relays an object payload to the room it names,
    sender excluded, as one [group:update] whose [data] holds every field of
    the payload other than [chatId], [action] and [userId], each with its
    value, and none of those three; the state is not changed. *)
Theorem X8_group_action_relays_the_other_fields
  (st : server) (socket : nat) (fields : list (string * jsval)) :
  exists data,
    on_group_action socket (JObj fields) st =
    Returned st
      [ConsoleLog "Group action:";
       Emit (ToRoomExcept (own_prop "chatId" fields) socket) "group:update"
         (JObj [("chatId", own_prop "chatId" fields);
                ("action", own_prop "action" fields);
                ("userId", own_prop "userId" fields);
                ("data", JObj data)]);
       ConsoleLog "Group action broadcast successfully"] /\
    forall k,
      own_prop k data =
      if existsb (String.eqb k) ["chatId"; "action"; "userId"]
      then JUndefined else own_prop k fields.
Proof.
  eexists. split; [reflexivity|].
  intros k. apply own_prop_unnamed.
Qed.

(** ** The token endpoint *)

Lemma map_get_set_other_key (tokens : list (jsval * jsval)) k k' v :
  strict_eq k k' = false ->
  map_get strict_eq k' (map_set strict_eq k v tokens) = map_get strict_eq k' tokens.
Proof.
  intros Hne. induction tokens as [|[k0 v0] tokens IH]; cbn.
  - now rewrite Hne.
  - destruct (strict_eq k0 k) eqn:E; cbn.
    + apply strict_eq_true in E. subst k0. now rewrite Hne.
    + now rewrite IH.
Qed.

Lemma map_set_length_present (tokens : list (jsval * jsval)) k v v0 :
  map_get strict_eq k tokens = Some v0 ->
  List.length (map_set strict_eq k v tokens) = List.length tokens.
Proof.
  induction tokens as [|[k1 v1] tokens IH]; cbn; [discriminate|].
  destruct (strict_eq k1 k); cbn; [reflexivity|].
  intros H. now rewrite IH.
Qed.

(** X9. [/api/save-token] validates nothing: every body other than [null]
    and [undefined] is answered 200, once and without an error being logged,
    and its [token] field is stored under its [userId] field, a field the
    body lacks being stored as [undefined]; so a body without [userId]
    still adds or replaces an entry, and that entry is the one a later
    lookup with an undefined key returns. The registry and the rooms are
    left alone. *)
Theorem X9_save_token_answers_every_body (st : server) (body : jsval) :
  nullish body = false ->
  exists st',
    save_token body st =
      Returned st' [Respond 200 (JObj [("message", JStr "Token saved successfully")])] /\
    userTokens st' =
      map_set strict_eq (field body "userId") (field body "token") (userTokens st) /\
    (primitive (field body "userId") = true ->
     map_get strict_eq (field body "userId") (userTokens st') =
       Some (field body "token")) /\
    activeUsers st' = activeUsers st /\ rooms st' = rooms st.
Proof.
  intros Hbody.
  destruct (destructure2_total body "userId" "token" Hbody)
    as (userId & token & Hd & Hu & Ht).
  exists (set_userTokens (map_set strict_eq userId token) st).
  unfold field. rewrite Hu, Ht.
  split; [apply (save_token_eq _ _ _ _ Hd)|].
  cbn [userTokens set_userTokens activeUsers rooms].
  split; [reflexivity|]. split; [|split; reflexivity].
  intros Hprim. apply map_get_set_same. now apply strict_eq_primitive.
Qed.

Lemma X9_save_token_answers_every_body_witness :
  exists st',
    save_token (JObj [("token", JStr "tok")]) one_room =
      Returned st' [Respond 200 (JObj [("message", JStr "Token saved successfully")])] /\
    userTokens st' = map_set strict_eq JUndefined (JStr "tok") (userTokens one_room) /\
    (primitive JUndefined = true ->
     map_get strict_eq JUndefined (userTokens st') = Some (JStr "tok")) /\
    activeUsers st' = activeUsers one_room /\ rooms st' = rooms one_room.
Proof.
  apply (X9_save_token_answers_every_body one_room (JObj [("token", JStr "tok")])).
  reflexivity.
Defined.

(** X10. Saving a token for a user replaces the token that user had, without
    adding an entry, and leaves the token of every other user, the registry
    and the rooms as they were. *)
Theorem X10_save_token_replaces_only_its_own_entry
  (st : server) (body userId token previous other : jsval) :
  destructure2 body "userId" "token" = Normal (userId, token) ->
  map_get strict_eq userId (userTokens st) = Some previous ->
  strict_eq userId other = false ->
  exists st' out,
    save_token body st = Returned st' out /\
    map_get strict_eq userId (userTokens st') = Some token /\
    map_get strict_eq other (userTokens st') = map_get strict_eq other (userTokens st) /\
    List.length (userTokens st') = List.length (userTokens st) /\
    activeUsers st' = activeUsers st /\ rooms st' = rooms st.
Proof.
  intros Hbody Hprev Hother.
  do 2 eexists. split; [apply (save_token_eq _ _ _ _ Hbody)|].
  cbn [userTokens set_userTokens activeUsers rooms].
  assert (Hrefl : strict_eq userId userId = true).
  { clear - Hprev. induction (userTokens st) as [|[k v] l IH]; cbn in Hprev;
      [discriminate|].
    destruct (strict_eq k userId) eqn:E; [|now apply IH].
    pose proof (strict_eq_true _ _ E) as Hk. subst k. exact E. }
  split; [now apply map_get_set_same|].
  split; [now apply map_get_set_other_key|].
  split; [now apply (map_set_length_present _ _ _ previous)|].
  split; reflexivity.
Qed.

Lemma X10_save_token_replaces_only_its_own_entry_witness :
  exists st' out,
    save_token (JObj [("userId", JStr "bob"); ("token", JStr "new")]) with_token =
      Returned st' out /\
    map_get strict_eq (JStr "bob") (userTokens st') = Some (JStr "new") /\
    map_get strict_eq (JStr "ann") (userTokens st') =
      map_get strict_eq (JStr "ann") (userTokens with_token) /\
    List.length (userTokens st') = List.length (userTokens with_token) /\
    activeUsers st' = activeUsers with_token /\ rooms st' = rooms with_token.
Proof.
  apply (X10_save_token_replaces_only_its_own_entry with_token
           (JObj [("userId", JStr "bob"); ("token", JStr "new")])
           (JStr "bob") (JStr "new") (JStr "tok") (JStr "ann")); reflexivity.
Defined.

(** ** The [new-message] handler *)

Lemma pusher_payload_needs_sender data now :
  lacks_sender data = true -> exists e, pusher_payload data now = Throw e.
Proof.
  unfold lacks_sender, pusher_payload, and_then. intros H.
  destruct (get_prop data "text") as [text|e]; [|now exists e].
  destruct (get_prop data "sender") as [sender|e]; [|now exists e].
  destruct sender; try discriminate; eexists; reflexivity.
Qed.

Lemma pusher_payload_with_sender data now :
  lacks_sender data = false ->
  exists sender,
    get_prop data "sender" = Normal sender /\ nullish sender = false /\
    nullish data = false /\
    pusher_payload data now =
      Normal (JObj [("message", field data "text"); ("senderId", field sender "uid");
                    ("senderName", field sender "displayName");
                    ("chatId", field data "chatId"); ("timestamp", now)]).
Proof.
  unfold lacks_sender, pusher_payload, and_then, field. intros H.
  destruct data; try discriminate; cbn in *;
    match goal with
    | H : nullish ?s = false |- _ =>
        exists s; repeat split; try assumption;
        destruct s; try discriminate; reflexivity
    end.
Qed.

Lemma fcm_message_with_sender data sender token :
  get_prop data "sender" = Normal sender -> nullish sender = false ->
  exists fields,
    fcm_message data token = Normal (JObj fields) /\
    own_prop "token" fields = token /\
    own_prop "notification" fields =
      JObj [("title", JStr ("New message from "
                             ++ to_js_string (field sender "displayName"))%string);
            ("body", field data "text")].
Proof.
  intros Hs Hn. unfold fcm_message, and_then, field. rewrite Hs.
  assert (Hd : nullish data = false) by (destruct data; try discriminate; reflexivity).
  destruct (get_prop_total sender "displayName" Hn) as [name ->].
  destruct (get_prop_total sender "uid" Hn) as [uid ->].
  destruct (get_prop_total data "text" Hd) as [text ->].
  destruct (get_prop_total data "chatId" Hd) as [chatId ->].
  eexists. split; [reflexivity|]. split; reflexivity.
Qed.

(** X11. A [new-message] whose payload has no sender to read is dropped
    before anything leaves the server: no notification call is started and
    nothing is emitted; the error is logged. *)
Theorem X11_new_message_without_sender_is_dropped
  (socket : nat) (data now : jsval) (answers : list (settled * server)) :
  lacks_sender data = true ->
  exists e,
    settle (on_new_message socket data now) answers =
      ([ConsoleError "Error handling message:" e], None).
Proof.
  intros H. destruct (pusher_payload_needs_sender data now H) as [e He].
  exists e. unfold on_new_message. rewrite He. reflexivity.
Qed.

Lemma X11_new_message_without_sender_is_dropped_witness :
  exists e,
    settle (on_new_message 1 (JObj [("text", JStr "hi")]) (JNum 0))
      [(Fulfilled, one_room)] =
      ([ConsoleError "Error handling message:" e], None).
Proof.
  apply (X11_new_message_without_sender_is_dropped 1 (JObj [("text", JStr "hi")])
           (JNum 0) [(Fulfilled, one_room)]).
  reflexivity.
Defined.

(** X12. However the notification calls settle, and however far the handler
    has run, a [new-message] is broadcast at most once, to the other
    connections only, and with the payload exactly as it was received. *)
Theorem X12_new_message_is_broadcast_at_most_once
  (socket : nat) (data now : jsval) (answers : list (settled * server)) :
  emits (fst (settle (on_new_message socket data now) answers)) = [] \/
  emits (fst (settle (on_new_message socket data now) answers)) =
    [Emit (ToOthers socket) "message-received" data].
Proof.
  unfold on_new_message.
  destruct (pusher_payload data now) as [payload|e]; [|now left].
  destruct answers as [|[r st] answers]; [now left|].
  cbn [settle]. unfold after_pusher.
  destruct r as [|e]; [|now left].
  destruct (get_prop data "recipientId") as [recipientId|e]; [|now left].
  destruct (truthy (or_undefined (map_get strict_eq recipientId (userTokens st))));
    [|now right].
  destruct (fcm_message data _) as [message|e]; [|now left].
  destruct answers as [|[r' st'] answers]; [now left|].
  cbn [settle]. destruct r'; now right.
Qed.

Lemma has_sender data sender k v :
  get_prop data "sender" = Normal sender ->
  get_prop sender k = Normal v ->
  lacks_sender data = false.
Proof.
  intros Hs Hk. unfold lacks_sender. rewrite Hs.
  destruct sender; try discriminate; reflexivity.
Qed.

(** X13. Once the Pusher call of a [new-message] whose sender has a string
    as [displayName] has been fulfilled, the message is broadcast to the
    other connections whether or not an FCM notification is due and however
    the FCM call settles. *)
Theorem X13_new_message_is_broadcast_once_pusher_is_fulfilled
  (socket : nat) (data now sender : jsval) (name : string)
  (st1 st2 : server) (fcm : settled) (rest : list (settled * server)) :
  get_prop data "sender" = Normal sender ->
  get_prop sender "displayName" = Normal (JStr name) ->
  emits (fst (settle (on_new_message socket data now)
                ((Fulfilled, st1) :: (fcm, st2) :: rest))) =
    [Emit (ToOthers socket) "message-received" data] /\
  snd (settle (on_new_message socket data now)
         ((Fulfilled, st1) :: (fcm, st2) :: rest)) = None.
Proof.
  intros Hsender Hname.
  pose proof (has_sender _ _ _ _ Hsender Hname) as H.
  destruct (pusher_payload_with_sender data now H) as (sender' & Hs & Hn & Hd & Hp).
  unfold on_new_message. rewrite Hp. cbn [settle]. unfold after_pusher.
  destruct (get_prop_total data "recipientId" Hd) as [recipientId ->].
  destruct (truthy (or_undefined (map_get strict_eq recipientId (userTokens st1))));
    [|split; reflexivity].
  destruct (fcm_message_with_sender data sender'
              (or_undefined (map_get strict_eq recipientId (userTokens st1))) Hs Hn)
    as (fields & -> & _).
  cbn [settle]. destruct fcm; split; reflexivity.
Qed.

Lemma X13_new_message_is_broadcast_once_pusher_is_fulfilled_witness :
  emits (fst (settle (on_new_message 1 chat_message (JNum 0))
                ((Fulfilled, with_token) :: (Rejected (Rejection JNull), with_token) :: []))) =
    [Emit (ToOthers 1) "message-received" chat_message] /\
  snd (settle (on_new_message 1 chat_message (JNum 0))
         ((Fulfilled, with_token) :: (Rejected (Rejection JNull), with_token) :: [])) = None.
Proof.
  apply (X13_new_message_is_broadcast_once_pusher_is_fulfilled 1 chat_message (JNum 0)
           (identity "ann") "ann"
           with_token with_token (Rejected (Rejection JNull)) []);
    reflexivity.
Defined.

(** X14. The FCM notification of a [new-message] whose sender has a string
    as [displayName] depends on the token map as it is when the Pusher call
    is fulfilled, not as it was when the event arrived: if a truthy token is
    then on record for [recipientId], the handler waits for one FCM send
    addressed to exactly that token and has emitted nothing yet; if none is,
    no FCM call is made and the message is broadcast at once. *)
Theorem X14_fcm_is_addressed_to_the_token_on_record
  (socket : nat) (data now sender : jsval) (name : string) (st : server) :
  get_prop data "sender" = Normal sender ->
  get_prop sender "displayName" = Normal (JStr name) ->
  (truthy (recipientToken data st) = true /\
   exists fields,
     settle (on_new_message socket data now) [(Fulfilled, st)] =
       ([], Some (FcmSend (JObj fields))) /\
     own_prop "token" fields = recipientToken data st) \/
  (truthy (recipientToken data st) = false /\
   settle (on_new_message socket data now) [(Fulfilled, st)] =
     ([Emit (ToOthers socket) "message-received" data], None)).
Proof.
  intros Hsender Hname.
  pose proof (has_sender _ _ _ _ Hsender Hname) as H.
  destruct (pusher_payload_with_sender data now H) as (sender' & Hs & Hn & Hd & Hp).
  unfold on_new_message. rewrite Hp. cbn [settle]. unfold after_pusher, recipientToken, field.
  destruct (get_prop_total data "recipientId" Hd) as [recipientId ->].
  destruct (truthy (or_undefined (map_get strict_eq recipientId (userTokens st)))) eqn:E.
  - left. split; [reflexivity|].
    destruct (fcm_message_with_sender data sender'
                (or_undefined (map_get strict_eq recipientId (userTokens st))) Hs Hn)
      as (fields & -> & Htoken & _).
    exists fields. split; [reflexivity|exact Htoken].
  - right. split; reflexivity.
Qed.

(** On a run: with the token "tok" on record for "bob", the handler waits
    for the FCM send of this message and has emitted nothing. *)
Example fcm_send_uses_the_saved_token :
  settle (on_new_message 1 chat_message (JNum 0)) [(Fulfilled, with_token)] =
  ([],
   Some (FcmSend
     (JObj
        [("token", JStr "tok");
         ("notification",
           JObj [("title", JStr "New message from ann"); ("body", JStr "hi")]);
         ("data",
           JObj [("chatId", JStr "r1"); ("senderId", JStr "ann");
                 ("type", JStr "new_message")]);
         ("android",
           JObj [("notification",
                   JObj [("icon", JStr "chat_icon"); ("color", JStr "#1a1a1a");
                         ("clickAction", JStr "FLUTTER_NOTIFICATION_CLICK");
                         ("priority", JStr "high"); ("defaultSound", JBool true);
                         ("defaultVibrateTimings", JBool true)])])]))).
Proof. reflexivity. Qed.

Lemma X14_fcm_is_addressed_to_the_token_on_record_witness :
  (truthy (recipientToken chat_message with_token) = true /\
   exists fields,
     settle (on_new_message 1 chat_message (JNum 0)) [(Fulfilled, with_token)] =
       ([], Some (FcmSend (JObj fields))) /\
     own_prop "token" fields = recipientToken chat_message with_token) \/
  (truthy (recipientToken chat_message with_token) = false /\
   settle (on_new_message 1 chat_message (JNum 0)) [(Fulfilled, with_token)] =
     ([Emit (ToOthers 1) "message-received" chat_message], None)).
Proof.
  apply (X14_fcm_is_addressed_to_the_token_on_record 1 chat_message (JNum 0)
           (identity "ann") "ann" with_token); reflexivity.
Defined.

(** ** Composition and frames *)

Lemma map_delete_set_fresh (m : list (nat * jsval)) c u :
  map_has Nat.eqb c m = false ->
  map_delete Nat.eqb c (map_set Nat.eqb c u m) = m.
Proof.
  induction m as [|[k v] m IH]; cbn [map_set map_delete].
  - now rewrite Nat.eqb_refl.
  - rewrite map_has_cons. intros H. apply orb_false_iff in H as [Hk Hm].
    rewrite Hk. cbn [map_delete]. rewrite Hk. now rewrite IH.
Qed.

(** X17. A connection that was not registered, joins and then disconnects,
    leaves the registry and the token map exactly as it found them: the
    other entries and their order are those of before. *)
Theorem X17_join_then_disconnect_restores_the_registry
  (st : server) (socket : nat) (userData reason : jsval) :
  map_has Nat.eqb socket (activeUsers st) = false ->
  activeUsers (run_events [(socket, UserJoin userData); (socket, Disconnect reason)] st)
    = activeUsers st /\
  userTokens (run_events [(socket, UserJoin userData); (socket, Disconnect reason)] st)
    = userTokens st.
Proof.
  intros H. cbn [run_events dispatch].
  rewrite on_user_join_eq, on_disconnect_eq.
  cbn [activeUsers userTokens set_activeUsers set_sockets set_rooms].
  split; [now apply map_delete_set_fresh|reflexivity].
Qed.

Lemma X17_join_then_disconnect_restores_the_registry_witness :
  activeUsers (run_events [(3, UserJoin (identity "cat")); (3, Disconnect JNull)] one_room)
    = activeUsers one_room /\
  userTokens (run_events [(3, UserJoin (identity "cat")); (3, Disconnect JNull)] one_room)
    = userTokens one_room.
Proof.
  apply (X17_join_then_disconnect_restores_the_registry one_room 3
           (identity "cat") JNull).
  reflexivity.
Defined.

Lemma unchanged_refl st : unchanged st st.
Proof. reflexivity. Qed.

Lemma unchanged_trans st1 st2 st3 :
  unchanged st1 st2 -> unchanged st2 st3 -> unchanged st1 st3.
Proof. unfold unchanged. congruence. Qed.

(** X18. The handlers of [message:private], [message:group],
    [typing:start], [typing:stop], [group:action] and [error] only read the
    state: whenever one of them returns, the registry, the token map, the
    rooms and the live connections are exactly as before. *)
Theorem X18_message_and_typing_events_leave_the_state
  (st : server) (socket : nat) (ev : client_event) :
  read_only ev = true ->
  match dispatch socket ev st with
  | Returned st' _ => st' = st
  | Escaped _ => True
  end.
Proof.
  intros Hev.
  destruct (dispatch socket ev st) as [st' out|e] eqn:H; [|exact I].
  destruct ev; try discriminate; cbn [dispatch] in H;
    unfold_handlers H;
    apply (keeps_listener unchanged) in H;
    try exact H;
    intros ?; frame unchanged_refl unchanged_trans.
Qed.

Lemma X18_message_and_typing_events_leave_the_state_witness :
  match dispatch 1 (MessageGroup (group_message "r1" "hi")) one_room with
  | Returned st' _ => st' = one_room
  | Escaped _ => True
  end.
Proof.
  apply (X18_message_and_typing_events_leave_the_state one_room 1
           (MessageGroup (group_message "r1" "hi"))).
  reflexivity.
Defined.

(** X19. A private message is emitted only to a connection that is in the
    registry with an identity whose [uid] is the target, only as
    [message:receive], and only with the sender's own registry entry as
    [from]; this holds for every registry content. *)
Theorem X19_private_message_goes_to_a_claimant_of_the_uid
  (st : server) (socket : nat) (payload to message : jsval)
  (t : target) (event : string) (body : jsval) :
  destructure2 payload "to" "message" = Normal (to, message) ->
  In (Emit t event body) (output (on_message_private socket payload st)) ->
  exists id who,
    t = ToSocket id /\
    In (id, who) (activeUsers st) /\
    uid_is to (id, who) = Normal true /\
    event = "message:receive" /\
    body = JObj [("from", registered socket st); ("message", message)].
Proof.
  intros Hpayload Hin.
  destruct (recipientSocket (activeUsers st) to) as [[id|]|e] eqn:E.
  - rewrite (on_message_private_found _ _ _ _ _ Hpayload _ E) in Hin.
    cbn [output] in Hin.
    destruct Hin as [H|[H|[H|[]]]]; try discriminate H.
    inversion H; subst.
    destruct (recipientSocket_registered _ _ _ E) as [who [Hwho Huid]].
    exists id, who. repeat split; assumption.
  - rewrite (on_message_private_missing _ _ _ _ _ Hpayload E) in Hin.
    cbn [output] in Hin. destruct Hin as [H|[H|[]]]; discriminate H.
  - rewrite (on_message_private_threw _ _ _ _ _ Hpayload _ E) in Hin.
    cbn [output] in Hin. destruct Hin as [H|[H|[]]]; discriminate H.
Qed.

Lemma X19_private_message_goes_to_a_claimant_of_the_uid_witness :
  exists id who,
    ToSocket 2 = ToSocket id /\
    In (id, who) (activeUsers two_claimants) /\
    uid_is (JStr "bob") (id, who) = Normal true /\
    "message:receive" = "message:receive" /\
    JObj [("from", identity "ann"); ("message", JStr "hi")] =
      JObj [("from", registered 1 two_claimants); ("message", JStr "hi")].
Proof.
  apply (X19_private_message_goes_to_a_claimant_of_the_uid two_claimants 1
           (private_message "bob" "hi") (JStr "bob") (JStr "hi")
           (ToSocket 2) "message:receive"
           (JObj [("from", identity "ann"); ("message", JStr "hi")])).
  - reflexivity.
  - right. left. reflexivity.
Defined.



(** X21. When no registered identity is [null] or [undefined], the private
    message handler never fails: it logs no error, and it emits the message
    to the first connection, in registration order, whose identity has the
    target [uid], or emits nothing when there is none. *)
Theorem X21_private_message_with_readable_identities
  (st : server) (socket : nat) (payload to message : jsval) :
  destructure2 payload "to" "message" = Normal (to, message) ->
  Forall (fun entry => nullish (snd entry) = false) (activeUsers st) ->
  errors (output (on_message_private socket payload st)) = [] /\
  emits (output (on_message_private socket payload st)) =
    match lookupByUid (activeUsers st) to with
    | Some id =>
        [Emit (ToSocket id) "message:receive"
           (JObj [("from", registered socket st); ("message", message)])]
    | None => []
    end.
Proof.
  intros Hpayload Hread.
  pose proof (recipientSocket_lookupByUid _ to Hread) as Hscan.
  destruct (lookupByUid (activeUsers st) to) as [id|].
  - rewrite (on_message_private_found _ _ _ _ _ Hpayload _ Hscan). split; reflexivity.
  - rewrite (on_message_private_missing _ _ _ _ _ Hpayload Hscan). split; reflexivity.
Qed.

Lemma X21_private_message_with_readable_identities_witness :
  errors (output (on_message_private 1 (private_message "bob" "hi") two_claimants)) = [] /\
  emits (output (on_message_private 1 (private_message "bob" "hi") two_claimants)) =
    match lookupByUid (activeUsers two_claimants) (JStr "bob") with
    | Some id =>
        [Emit (ToSocket id) "message:receive"
           (JObj [("from", registered 1 two_claimants); ("message", JStr "hi")])]
    | None => []
    end.
Proof.
  apply (X21_private_message_with_readable_identities two_claimants 1
           (private_message "bob" "hi") (JStr "bob") (JStr "hi")).
  - reflexivity.
  - repeat constructor.
Defined.
